(** * realtime-messenger: a shallow embedding of the real-time core

    The development follows the TypeScript sources:

    - [Validation]  : client/src/utils/validation.ts ([validateMessage])
    - [Zod]         : the string schema of [message.send]'s input
    - [Trpc]        : client/src/utils/trpc.ts ([ConnectionManager],
                      [getReconnectDelay], the [onOpen]/[onClose] callbacks)
    - [ChatView]    : client/src/components/ChatView.tsx (optimistic sends and
                      their reconciliation)
    - [Router]      : server/src/routers/message.ts ([send], [onNew],
                      [onAnyNew]) over the Prisma tables and Node's
                      [EventEmitter]

    Part I holds the model, Part II the properties. *)

From Stdlib Require Import QArith Qminmax Qpower Lqa Lia.
From stdpp Require Import gmap strings list pretty.

(* ===================================================================== *)
(** * Part I: the model                                                  *)
(* ===================================================================== *)

(** ** JavaScript strings

    A JavaScript string is a sequence of UTF-16 code units and [.length]
    counts code units.  Message contents are kept in that form; identifiers
    (user ids, thread ids, topics) are only ever compared and concatenated
    and are kept as [string]. *)

Module Js.

Definition jsstring : Type := list N.

(** [String.prototype.trim] strips WhiteSpace and LineTerminator code
    points from both ends (ECMA-262, 22.1.3.32). *)
Definition isWhiteSpace (c : N) : bool :=
  ((9 <=? c) && (c <=? 13) || (c =? 32) || (c =? 160) || (c =? 5760)
   || (8192 <=? c) && (c <=? 8202) || (c =? 8232) || (c =? 8233)
   || (c =? 8239) || (c =? 8287) || (c =? 12288) || (c =? 65279))%N.

Fixpoint trimStart (s : jsstring) : jsstring :=
  match s with
  | c :: s' => if isWhiteSpace c then trimStart s' else s
  | [] => []
  end.

Definition trimEnd (s : jsstring) : jsstring := rev (trimStart (rev s)).

Definition trim (s : jsstring) : jsstring := trimEnd (trimStart s).

(** Truthiness of a string: [!s] holds exactly for the empty string. *)
Definition falsy (s : jsstring) : bool :=
  match s with [] => true | _ => false end.

(** Latin-1 text as code units, for writing contents in examples. *)
Definition ofString (s : string) : jsstring :=
  map Ascii.N_of_ascii (String.list_ascii_of_string s).

End Js.

(** ** validation.ts *)

Module Validation.
Import Js.

Module LIMITS.
Definition MESSAGE_MAX_LENGTH : nat := 5000.
Definition USERNAME_MIN_LENGTH : nat := 1.
Definition USERNAME_MAX_LENGTH : nat := 50.
End LIMITS.

(** [null] is [None]; an error is its text. *)
Definition validateMessage (content : jsstring) : option string :=
  let trimmed := trim content in
  if falsy trimmed then Some "Message cannot be empty"%string
  else if LIMITS.MESSAGE_MAX_LENGTH <? length trimmed
       then Some "Message cannot exceed 5000 characters"%string
       else None.

Definition validateUsername (username : jsstring) : option string :=
  let trimmed := trim username in
  if falsy trimmed then Some "Username is required"%string
  else if LIMITS.USERNAME_MAX_LENGTH <? length trimmed
       then Some "Username cannot exceed 50 characters"%string
       else None.

End Validation.

(** ** The zod string schema of [message.send]

    [z.string().min(n, msg).max(m)] runs every check on the input and
    collects one issue per failed check; parsing succeeds when no issue was
    raised.  A check without a message of its own reports the library's
    default text, kept here as [None]. *)

Module Zod.
Import Js.

Inductive IssueCode := too_small | too_big.

Record Issue := mkIssue { code : IssueCode; message : option string }.

Inductive Check :=
| min (value : nat) (message : option string)
| max (value : nat) (message : option string).

Definition runCheck (data : jsstring) (c : Check) : list Issue :=
  match c with
  | min value msg => if length data <? value then [mkIssue too_small msg] else []
  | max value msg => if value <? length data then [mkIssue too_big msg] else []
  end.

Definition parseString (checks : list Check) (data : jsstring) : list Issue :=
  concat (map (runCheck data) checks).

#[global] Instance IssueCode_eq_dec : EqDecision IssueCode.
Proof. solve_decision. Defined.

#[global] Instance Issue_eq_dec : EqDecision Issue.
Proof. solve_decision. Defined.

End Zod.

(** ** trpc.ts: connection manager and reconnection delay *)

Module Trpc.

Inductive ConnectionState := connecting | connected | disconnected | reconnecting.

#[global] Instance ConnectionState_eq_dec : EqDecision ConnectionState.
Proof. solve_decision. Defined.

(** The fields of [ConnectionManager] that the callbacks read and write.
    The listener set only observes [state]; [wsClient] is the transport
    handle. *)
Record ConnectionManager := mkManager {
  state : ConnectionState;
  reconnectAttempts : nat;
  maxReconnectAttempts : nat
}.

(** The singleton [connectionManager = new ConnectionManager()]. *)
Definition connectionManager : ConnectionManager :=
  {| state := disconnected; reconnectAttempts := 0; maxReconnectAttempts := 10 |}.

Definition getState (cm : ConnectionManager) : ConnectionState := state cm.

Definition setState (s : ConnectionState) (cm : ConnectionManager) : ConnectionManager :=
  {| state := s;
     reconnectAttempts := reconnectAttempts cm;
     maxReconnectAttempts := maxReconnectAttempts cm |}.

Definition resetReconnectAttempts (cm : ConnectionManager) : ConnectionManager :=
  {| state := state cm;
     reconnectAttempts := 0;
     maxReconnectAttempts := maxReconnectAttempts cm |}.

(** [++this.reconnectAttempts]: the new count and the updated manager. *)
Definition incrementReconnectAttempts (cm : ConnectionManager) : nat * ConnectionManager :=
  let n := S (reconnectAttempts cm) in
  (n, {| state := state cm;
         reconnectAttempts := n;
         maxReconnectAttempts := maxReconnectAttempts cm |}).

Definition getReconnectAttempts (cm : ConnectionManager) : nat := reconnectAttempts cm.

Definition shouldReconnect (cm : ConnectionManager) : bool :=
  reconnectAttempts cm <? maxReconnectAttempts cm.

(** The client process: the manager and the token slot of localStorage. *)
Record Client := mkClient {
  manager : ConnectionManager;
  token : option string
}.

Definition getAuthToken (c : Client) : option string := token c.

(** [onOpen]: [setState("connected")], then [resetReconnectAttempts()]. *)
Definition onOpen (c : Client) : Client :=
  {| manager := resetReconnectAttempts (setState connected (manager c));
     token := token c |}.

(** [onClose]: without a token the state becomes [disconnected] and the
    counter is left alone; with a token the counter is incremented first
    and [shouldReconnect] chooses between [reconnecting] and
    [disconnected]. *)
Definition onClose (c : Client) : Client :=
  match getAuthToken c with
  | None => {| manager := setState disconnected (manager c); token := token c |}
  | Some _ =>
      let '(_, cm) := incrementReconnectAttempts (manager c) in
      if shouldReconnect cm
      then {| manager := setState reconnecting cm; token := token c |}
      else {| manager := setState disconnected cm; token := token c |}
  end.

(** What the transport reports to the two callbacks. *)
Inductive TransportEvent := Open | Close.

Definition handle (ev : TransportEvent) (c : Client) : Client :=
  match ev with
  | Open => onOpen c
  | Close => onClose c
  end.

Definition run (evs : list TransportEvent) (c : Client) : Client :=
  fold_left (fun c ev => handle ev c) evs c.

(** [getReconnectDelay].  [random] is the value drawn by [Math.random()],
    and the arithmetic is exact rational arithmetic: [Math.pow(2, attempt)]
    is [2 ^ attempt] for every integer [attempt]. *)
Definition getReconnectDelay (attempt : Z) (random : Q) : Q :=
  let baseDelay := 1000%Q in
  let maxDelay := 30000%Q in
  let delay := Qmin (baseDelay * 2 ^ attempt) maxDelay in
  let jitter := (delay * 0.2 * (random - 0.5))%Q in
  (delay + jitter)%Q.

(** The same computation in binary64.  [delay] is computed exactly: for
    [attempt >= 0] the product [1000 * 2^attempt] is the integer 125 scaled
    by a power of two, and past the overflow threshold [Math.min] returns
    [maxDelay].  Every later operation rounds its result, and so does the
    literal [0.2]; [fl] is that rounding. *)
Section Binary64.

Variable fl : Q -> Q.

Definition getReconnectDelay_fl (attempt : Z) (random : Q) : Q :=
  let baseDelay := 1000%Q in
  let maxDelay := 30000%Q in
  let delay := Qmin (baseDelay * 2 ^ attempt) maxDelay in
  let jitter := fl (fl (delay * fl 0.2) * fl (random - 0.5))%Q in
  fl (delay + jitter)%Q.

End Binary64.

End Trpc.

(** ** ChatView.tsx: optimistic sends and their reconciliation *)

Module ChatView.
Import Js.

Module User.
Record t := mk { id : string; username : string }.
End User.

(** A confirmed message, in the wire shape the server returns from
    [message.send] and pushes through [message.onNew].  (Entries loaded by
    [thread.getById] lack [threadId]; no handler below reads it.) *)
Module Message.
Record t := mk {
  id : string;
  content : jsstring;
  createdAt : nat;
  threadId : string;
  sender : User.t
}.
End Message.

Inductive Status := sending | sent | failed.

#[global] Instance Status_eq_dec : EqDecision Status.
Proof. solve_decision. Defined.

Module OptimisticMessage.
Record t := mk {
  id : string;
  optimisticId : string;
  content : jsstring;
  createdAt : nat;
  threadId : string;
  sender : User.t;
  status : Status;
  error : option string
}.
End OptimisticMessage.

(** [type DisplayMessage = Message | OptimisticMessage]; the two are told
    apart by the presence of the [status] property. *)
Inductive DisplayMessage :=
| Confirmed (m : Message.t)
| Optimistic (o : OptimisticMessage.t).

Definition isOptimisticMessage (msg : DisplayMessage) : bool :=
  match msg with Optimistic _ => true | Confirmed _ => false end.

(** Property reads [m.id], [m.content], [m.sender.id] on the union. *)
Definition id (msg : DisplayMessage) : string :=
  match msg with
  | Confirmed m => Message.id m
  | Optimistic o => OptimisticMessage.id o
  end.

Definition content (msg : DisplayMessage) : jsstring :=
  match msg with
  | Confirmed m => Message.content m
  | Optimistic o => OptimisticMessage.content o
  end.

Definition sender (msg : DisplayMessage) : User.t :=
  match msg with
  | Confirmed m => Message.sender m
  | Optimistic o => OptimisticMessage.sender o
  end.

(** The [variables] of the send mutation. *)
Module SendVariables.
Record t := mk { threadId : string; content : jsstring }.
End SendVariables.

(** A JavaScript [Map] iterates in insertion order; [set] on a present key
    keeps the key's position. *)
Definition JsMap (V : Type) : Type := list (string * V).

Fixpoint mapSet {V} (k : string) (v : V) (m : JsMap V) : JsMap V :=
  match m with
  | [] => [(k, v)]
  | (k', v') :: m' =>
      if bool_decide (k' = k) then (k, v) :: m' else (k', v') :: mapSet k v m'
  end.

Definition mapDelete {V} (k : string) (m : JsMap V) : JsMap V :=
  filter (fun kv => kv.1 <> k) m.

(** The three pieces of component state the handlers write. *)
Record State := mkState {
  newMessage : jsstring;
  localMessages : list DisplayMessage;
  optimisticMessages : JsMap OptimisticMessage.t
}.

Definition initialState : State :=
  {| newMessage := []; localMessages := []; optimisticMessages := [] |}.

(** [prev.filter((m) => m !== matchingOptimistic)] compares object
    references.  Every entry of [localMessages] is an object of its own
    (placeholders are appended once by [handleSend], [map] allocates fresh
    objects), so the object found by [find] occurs exactly at the position
    where [find] stopped: the filter removes the first entry that satisfies
    the predicate of [find]. *)
Fixpoint removeFirst {A} (p : A -> bool) (l : list A) : list A :=
  match l with
  | [] => []
  | x :: l' => if p x then l' else x :: removeFirst p l'
  end.

(** *** [sendMutation.onSuccess] *)

Definition pendingWith (c : jsstring) (kv : string * OptimisticMessage.t) : bool :=
  bool_decide (OptimisticMessage.content kv.2 = c)
  && bool_decide (OptimisticMessage.status kv.2 = sending).


(** The updater given to [setLocalMessages]. *)
Definition onSuccess_localMessages (serverMessage : Message.t)
    (variables : SendVariables.t) (prev : list DisplayMessage) : list DisplayMessage :=
  let filtered :=
    List.filter (fun m => negb (isOptimisticMessage m)
                          || negb (bool_decide (content m = SendVariables.content variables)))
                prev in
  if existsb (fun m => bool_decide (id m = Message.id serverMessage)) filtered
  then filtered
  else filtered ++ [Confirmed serverMessage].


(** *** [sendMutation.onError] *)

Definition markFailed (err : string) (o : OptimisticMessage.t) : OptimisticMessage.t :=
  {| OptimisticMessage.id := OptimisticMessage.id o;
     OptimisticMessage.optimisticId := OptimisticMessage.optimisticId o;
     OptimisticMessage.content := OptimisticMessage.content o;
     OptimisticMessage.createdAt := OptimisticMessage.createdAt o;
     OptimisticMessage.threadId := OptimisticMessage.threadId o;
     OptimisticMessage.sender := OptimisticMessage.sender o;
     OptimisticMessage.status := failed;
     OptimisticMessage.error := Some err |}.

Definition onError_optimisticMessages (err : string) (variables : SendVariables.t)
    (prev : JsMap OptimisticMessage.t) : JsMap OptimisticMessage.t :=
  match find (pendingWith (SendVariables.content variables)) prev with
  | Some (k, msg) => mapSet k (markFailed err msg) prev
  | None => prev
  end.

Definition onError_localMessages (err : string) (variables : SendVariables.t)
    (prev : list DisplayMessage) : list DisplayMessage :=
  map (fun m =>
         match m with
         | Optimistic o =>
             if bool_decide (OptimisticMessage.content o = SendVariables.content variables)
                && bool_decide (OptimisticMessage.status o = sending)
             then Optimistic (markFailed err o)
             else m
         | Confirmed _ => m
         end) prev.

Definition onError (err : string) (variables : SendVariables.t) (st : State) : State :=
  {| newMessage := newMessage st;
     localMessages := onError_localMessages err variables (localMessages st);
     optimisticMessages := onError_optimisticMessages err variables (optimisticMessages st) |}.

(** *** [message.onNew] subscription, [onData] *)

Definition matchesOptimistic (message : Message.t) (m : DisplayMessage) : bool :=
  isOptimisticMessage m
  && bool_decide (User.id (sender m) = User.id (Message.sender message))
  && bool_decide (content m = Message.content message).

Definition onData_localMessages (message : Message.t)
    (prev : list DisplayMessage) : list DisplayMessage :=
  if existsb (fun m => bool_decide (id m = Message.id message)) prev then prev
  else match find (matchesOptimistic message) prev with
       | Some _ => removeFirst (matchesOptimistic message) prev ++ [Confirmed message]
       | None => prev ++ [Confirmed message]
       end.


(** *** [handleSend]

    [optimisticId] is the value of [generateOptimisticId()] and [now] the
    value of [new Date()].  The result carries the variables handed to
    [sendMutation.mutate], if the send went out. *)
Definition handleSend (thread : string) (currentUser : option User.t)
    (optimisticId : string) (now : nat) (st : State) : State * option SendVariables.t :=
  match Validation.validateMessage (newMessage st) with
  | Some _ => (st, None)
  | None =>
      let content := trim (newMessage st) in
      match falsy content, currentUser with
      | false, Some user =>
          let optimisticMsg :=
            {| OptimisticMessage.id := optimisticId;
               OptimisticMessage.optimisticId := optimisticId;
               OptimisticMessage.content := content;
               OptimisticMessage.createdAt := now;
               OptimisticMessage.threadId := thread;
               OptimisticMessage.sender :=
                 {| User.id := User.id user; User.username := User.username user |};
               OptimisticMessage.status := sending;
               OptimisticMessage.error := None |} in
          ({| newMessage := [];
              localMessages := localMessages st ++ [Optimistic optimisticMsg];
              optimisticMessages := mapSet optimisticId optimisticMsg (optimisticMessages st) |},
           Some {| SendVariables.threadId := thread; SendVariables.content := content |})
      | _, _ => (st, None)
      end
  end.

(** Typing into the input box: [setNewMessage(e.target.value)]. *)
Definition setNewMessage (text : jsstring) (st : State) : State :=
  {| newMessage := text;
     localMessages := localMessages st;
     optimisticMessages := optimisticMessages st |}.

(** How a confirmed message reaches the list: pushed over the
    subscription, or returned by the mutation. *)
Inductive Arrival :=
| Push
| Confirmation (variables : SendVariables.t).

Definition arrive (a : Arrival) (m : Message.t) (l : list DisplayMessage) : list DisplayMessage :=
  match a with
  | Push => onData_localMessages m l
  | Confirmation variables => onSuccess_localMessages m variables l
  end.

(** Number of entries that carry a given id. *)
Definition countId (i : string) (l : list DisplayMessage) : nat :=
  length (List.filter (fun m => bool_decide (id m = i)) l).

(** The two anonymous predicates of the handlers, named: the test
    [m.id === i], and the test of the filter in [onSuccess]. *)
Definition hasId (i : string) (m : DisplayMessage) : bool := bool_decide (id m = i).

Definition kept (c : jsstring) (m : DisplayMessage) : bool :=
  negb (isOptimisticMessage m) || negb (bool_decide (content m = c)).

(** *** [retryMessage] and [removeFailedMessage] *)

Fixpoint mapGet {V} (k : string) (m : JsMap V) : option V :=
  match m with
  | [] => None
  | (k', v) :: m' => if bool_decide (k' = k) then Some v else mapGet k m'
  end.

(** [{ ...m, status: "sending", error: undefined }] *)
Definition markSending (o : OptimisticMessage.t) : OptimisticMessage.t :=
  {| OptimisticMessage.id := OptimisticMessage.id o;
     OptimisticMessage.optimisticId := OptimisticMessage.optimisticId o;
     OptimisticMessage.content := OptimisticMessage.content o;
     OptimisticMessage.createdAt := OptimisticMessage.createdAt o;
     OptimisticMessage.threadId := OptimisticMessage.threadId o;
     OptimisticMessage.sender := OptimisticMessage.sender o;
     OptimisticMessage.status := sending;
     OptimisticMessage.error := None |}.

Definition retry_localMessages (optimisticId : string)
    (prev : list DisplayMessage) : list DisplayMessage :=
  map (fun m =>
         match m with
         | Optimistic o =>
             if bool_decide (OptimisticMessage.optimisticId o = optimisticId)
             then Optimistic (markSending o)
             else m
         | Confirmed _ => m
         end) prev.

(** [retryMessage]: nothing happens for an id the map does not hold;
    otherwise the entry goes back to [sending] in the map and in the list and
    the mutation is issued again with the entry's content. *)
Definition retryMessage (thread : string) (optimisticId : string) (st : State)
  : State * option SendVariables.t :=
  match mapGet optimisticId (optimisticMessages st) with
  | None => (st, None)
  | Some msg =>
      ({| newMessage := newMessage st;
          localMessages := retry_localMessages optimisticId (localMessages st);
          optimisticMessages :=
            mapSet optimisticId (markSending msg) (optimisticMessages st) |},
       Some {| SendVariables.threadId := thread;
               SendVariables.content := OptimisticMessage.content msg |})
  end.

Definition remove_localMessages (optimisticId : string)
    (prev : list DisplayMessage) : list DisplayMessage :=
  List.filter
    (fun m =>
       negb (isOptimisticMessage m)
       || match m with
          | Optimistic o =>
              negb (bool_decide (OptimisticMessage.optimisticId o = optimisticId))
          | Confirmed _ => true
          end) prev.

Definition removeFailedMessage (optimisticId : string) (st : State) : State :=
  {| newMessage := newMessage st;
     localMessages := remove_localMessages optimisticId (localMessages st);
     optimisticMessages := mapDelete optimisticId (optimisticMessages st) |}.

(** The confirmed messages of a list, in order. *)
Definition confirmedOf (l : list DisplayMessage) : list Message.t :=
  flat_map (fun m => match m with Confirmed c => [c] | Optimistic _ => [] end) l.

(** *** Grouping of bubbles in the message list

    [createdAt] is read through [new Date(...).getTime()], in
    milliseconds. *)
Definition createdAt (msg : DisplayMessage) : nat :=
  match msg with
  | Confirmed m => Message.createdAt m
  | Optimistic o => OptimisticMessage.createdAt o
  end.

Definition GROUP_TIME_THRESHOLD : Z := 4 * 60 * 1000.

(** [localMessages[index - 1]] and [localMessages[index + 1]]: an index
    outside the array reads [undefined]. *)
Definition prevMessage (l : list DisplayMessage) (index : nat) : option DisplayMessage :=
  match index with
  | 0 => None
  | S i => l !! i
  end.

Definition nextMessage (l : list DisplayMessage) (index : nat) : option DisplayMessage :=
  l !! (S index).

Definition isFirstInGroup (l : list DisplayMessage) (index : nat)
    (message : DisplayMessage) : bool :=
  match prevMessage l index with
  | None => true
  | Some prev =>
      negb (bool_decide (User.id (sender prev) = User.id (sender message)))
      || (GROUP_TIME_THRESHOLD <? Z.of_nat (createdAt message) - Z.of_nat (createdAt prev))%Z
  end.

Definition isLastInGroup (l : list DisplayMessage) (index : nat)
    (message : DisplayMessage) : bool :=
  match nextMessage l index with
  | None => true
  | Some next =>
      negb (bool_decide (User.id (sender next) = User.id (sender message)))
      || (GROUP_TIME_THRESHOLD <? Z.of_nat (createdAt next) - Z.of_nat (createdAt message))%Z
  end.

(** No entry of the state carries the optimistic id [optimisticId], and no
    placeholder with content [c] is still [sending]. *)
Definition noClash (optimisticId : string) (c : jsstring) (st : State) : Prop :=
  (forall kv, In kv (optimisticMessages st) ->
              kv.1 <> optimisticId /\ pendingWith c kv = false)
  /\ (forall o, In (Optimistic o) (localMessages st) ->
                OptimisticMessage.optimisticId o <> optimisticId
                /\ ~ (OptimisticMessage.content o = c
                      /\ OptimisticMessage.status o = sending)).

End ChatView.

(** ** routers/message.ts: the message router *)

Module Router.
Import Js.

Module Sender.
Record t := mk { id : string; username : string }.
End Sender.

Module MessageEvent.
Record t := mk {
  id : string;
  content : jsstring;
  createdAt : nat;
  threadId : string;
  sender : Sender.t
}.
End MessageEvent.

(** [ctx.user], the verified JWT payload. *)
Module JWTPayload.
Record t := mk { userId : string; username : string }.
End JWTPayload.

(** *** What a procedure can throw *)

Inductive Code := UNAUTHORIZED | FORBIDDEN | BAD_REQUEST.

Inductive Thrown :=
| TRPCError (code : Code) (message : string)
| ZodError (issues : list Zod.Issue)   (* input validation, BAD_REQUEST *)
| PrismaError                          (* a rejected database write *)
| ListenerError.                       (* thrown by a listener during emit *)

Inductive Result (A : Type) :=
| Return (a : A)
| Throw (e : Thrown).
Arguments Return {A} a.
Arguments Throw {A} e.

(** *** The Prisma tables (migration.sql)

    [user] maps a user id to the username, [thread] a thread id to its
    [updatedAt]; [threadParticipant] holds the (userId, threadId) pairs and
    [message] the message rows in creation order. *)
Module MessageRow.
Record t := mk {
  id : string;
  content : jsstring;
  createdAt : nat;
  threadId : string;
  senderId : string
}.
End MessageRow.

Record Prisma := mkPrisma {
  user : gmap string string;
  thread : gmap string nat;
  threadParticipant : list (string * string);
  message : list MessageRow.t
}.

(** [threadParticipant.findUnique({ where: { userId_threadId } })] *)
Definition threadParticipant_findUnique (db : Prisma) (userId threadId : string)
  : option (string * string) :=
  find (fun p => bool_decide (p.1 = userId) && bool_decide (p.2 = threadId))
       (threadParticipant db).

(** [threadParticipant.findMany({ where: { userId } })] *)
Definition threadParticipant_findMany (db : Prisma) (userId : string)
  : list (string * string) :=
  List.filter (fun p => bool_decide (p.1 = userId)) (threadParticipant db).

(** [message.create({ data, include: { sender } })].  The row refers to
    its thread and its sender by foreign key: the write is rejected when
    either is missing.  [id] and [createdAt] are the column defaults drawn
    for the new row. *)
Definition message_create (db : Prisma) (content : jsstring)
    (threadId senderId : string) (id : string) (createdAt : nat)
  : option (MessageRow.t * Sender.t * Prisma) :=
  match thread db !! threadId, user db !! senderId with
  | Some _, Some username =>
      let row := MessageRow.mk id content createdAt threadId senderId in
      Some (row, Sender.mk senderId username,
            {| user := user db; thread := thread db;
               threadParticipant := threadParticipant db;
               message := message db ++ [row] |})
  | _, _ => None
  end.

(** [thread.update({ where: { id }, data: { updatedAt } })] rejects when no
    such thread exists. *)
Definition thread_update (db : Prisma) (id : string) (updatedAt : nat) : option Prisma :=
  match thread db !! id with
  | Some _ =>
      Some {| user := user db; thread := <[id := updatedAt]> (thread db);
              threadParticipant := threadParticipant db;
              message := message db |}
  | None => None
  end.

(** *** Listeners and the event emitter

    A listener is one of the two [onMessage] closures.  It captures what
    its subscription computed when it was set up (the thread id of the
    request, or the set returned by [getUserThreadIds]) and the [emit]
    object of its observable.  [emit.next] is the transport's: it either
    returns or throws. *)

Inductive Completion := Normal | Abrupt.

Definition Observer : Type := MessageEvent.t -> Completion.

Inductive OnMessage :=
| onNew_onMessage (input_threadId : string)
| onAnyNew_onMessage (userThreadIds : gset string).

Record Listener := mkListener {
  subscription : nat;      (* identity of the closure *)
  onMessage : OnMessage;
  emit_next : Observer
}.

(** The process: the database behind [ctx.prisma], the global
    [messageEmitter] (topic to listeners, in registration order), the
    events handed to [emit.next] so far with the subscription they went
    to, and the number of subscriptions set up so far. *)
Record Server := mkServer {
  prisma : Prisma;
  messageEmitter : gmap string (list Listener);
  delivered : list (nat * MessageEvent.t);
  nextSubscription : nat
}.

Definition emptyPrisma : Prisma :=
  {| user := ∅; thread := ∅; threadParticipant := []; message := [] |}.

Definition initialServer (db : Prisma) : Server :=
  {| prisma := db; messageEmitter := ∅; delivered := []; nextSubscription := 0 |}.

Definition listeners (topic : string) (s : Server) : list Listener :=
  default [] (messageEmitter s !! topic).

(** Whether the body of [onMessage] reaches [emit.next(message)]. *)
Definition forwards (h : OnMessage) (message : MessageEvent.t) : bool :=
  match h with
  | onNew_onMessage input_threadId =>
      bool_decide (MessageEvent.threadId message = input_threadId)
  | onAnyNew_onMessage userThreadIds =>
      bool_decide (MessageEvent.threadId message ∈ userThreadIds)
  end.

(** One call of a listener. *)
Definition call (l : Listener) (message : MessageEvent.t)
    (out : list (nat * MessageEvent.t)) : list (nat * MessageEvent.t) * Completion :=
  if forwards (onMessage l) message then
    match emit_next l message with
    | Normal => (out ++ [(subscription l, message)], Normal)
    | Abrupt => (out, Abrupt)
    end
  else (out, Normal).

(** [EventEmitter.prototype.emit]: the listeners of the topic are called
    synchronously, in the order they were added; an exception thrown by a
    listener leaves the loop and propagates to the caller of [emit]. *)
Fixpoint dispatch (ls : list Listener) (message : MessageEvent.t)
    (out : list (nat * MessageEvent.t)) : list (nat * MessageEvent.t) * Completion :=
  match ls with
  | [] => (out, Normal)
  | l :: ls' =>
      match call l message out with
      | (out', Normal) => dispatch ls' message out'
      | (out', Abrupt) => (out', Abrupt)
      end
  end.

Definition setDelivered (out : list (nat * MessageEvent.t)) (s : Server) : Server :=
  {| prisma := prisma s; messageEmitter := messageEmitter s;
     delivered := out; nextSubscription := nextSubscription s |}.

Definition setPrisma (db : Prisma) (s : Server) : Server :=
  {| prisma := db; messageEmitter := messageEmitter s;
     delivered := delivered s; nextSubscription := nextSubscription s |}.

Definition emit (topic : string) (message : MessageEvent.t) (s : Server)
  : Server * Completion :=
  let '(out, c) := dispatch (listeners topic s) message (delivered s) in
  (setDelivered out s, c).

(** [EventEmitter.prototype.on]: append to the topic's listeners. *)
Definition on (topic : string) (l : Listener) (s : Server) : Server :=
  {| prisma := prisma s;
     messageEmitter := <[topic := listeners topic s ++ [l]]> (messageEmitter s);
     delivered := delivered s;
     nextSubscription := nextSubscription s |}.

(** [EventEmitter.prototype.off]: remove the most recently added instance
    of the listener; a topic left without listeners is dropped. *)
Fixpoint removeLast (i : nat) (ls : list Listener) : list Listener * bool :=
  match ls with
  | [] => ([], false)
  | l :: ls' =>
      let '(r, found) := removeLast i ls' in
      if found then (l :: r, true)
      else if bool_decide (subscription l = i) then (ls', true)
      else (l :: ls', false)
  end.

Definition off (topic : string) (i : nat) (s : Server) : Server :=
  match messageEmitter s !! topic with
  | None => s
  | Some ls =>
      let ls' := (removeLast i ls).1 in
      {| prisma := prisma s;
         messageEmitter :=
           match ls' with
           | [] => delete topic (messageEmitter s)
           | _ => <[topic := ls']> (messageEmitter s)
           end;
         delivered := delivered s;
         nextSubscription := nextSubscription s |}
  end.

(** Per-subscription view of [delivered]: the stream a subscriber saw. *)
Definition stream (i : nat) (s : Server) : list MessageEvent.t :=
  map snd (List.filter (fun d => bool_decide (d.1 = i)) (delivered s)).

(** *** Security helpers *)

Definition verifyThreadParticipant (user : JWTPayload.t) (threadId : string)
    (s : Server) : Result unit :=
  match threadParticipant_findUnique (prisma s) (JWTPayload.userId user) threadId with
  | None => Throw (TRPCError FORBIDDEN "You are not a participant in this thread")
  | Some _ => Return ()
  end.

Definition getUserThreadIds (user : JWTPayload.t) (s : Server) : gset string :=
  list_to_set (map snd (threadParticipant_findMany (prisma s) (JWTPayload.userId user))).

(** *** [send] *)

Record SendInput := mkSendInput { threadId : string; content : jsstring }.

(** The schema [z.string().min(1, "Message cannot be empty").max(5000)]
    of [content]; [threadId] is any string. *)
Definition send_input (input : SendInput) : list Zod.Issue :=
  Zod.parseString
    [Zod.min 1 (Some "Message cannot be empty"%string); Zod.max 5000 None]
    (content input).

(** The values the environment supplies to one [send]: the id and
    [createdAt] of the new row and the [new Date()] of the thread update. *)
Record Env := mkEnv { newId : string; newCreatedAt : nat; now : nat }.

Definition threadTopic (threadId : string) : string := "thread:" +:+ threadId.

(** The resolver given to [.mutation]. *)
Definition send (user : JWTPayload.t) (input : SendInput) (env : Env) (s : Server)
  : Result MessageEvent.t * Server :=
  match verifyThreadParticipant user (threadId input) s with
  | Throw e => (Throw e, s)
  | Return _ =>
      match message_create (prisma s) (content input) (threadId input)
              (JWTPayload.userId user) (newId env) (newCreatedAt env) with
      | None => (Throw PrismaError, s)
      | Some (message, sender, db1) =>
          match thread_update db1 (threadId input) (now env) with
          | None => (Throw PrismaError, setPrisma db1 s)
          | Some db2 =>
              let messageEvent :=
                {| MessageEvent.id := MessageRow.id message;
                   MessageEvent.content := MessageRow.content message;
                   MessageEvent.createdAt := MessageRow.createdAt message;
                   MessageEvent.threadId := MessageRow.threadId message;
                   MessageEvent.sender := sender |} in
              match emit (threadTopic (threadId input)) messageEvent (setPrisma db2 s) with
              | (s1, Abrupt) => (Throw ListenerError, s1)
              | (s1, Normal) =>
                  match emit "message:new" messageEvent s1 with
                  | (s2, Abrupt) => (Throw ListenerError, s2)
                  | (s2, Normal) => (Return messageEvent, s2)
                  end
              end
          end
      end
  end.

(** [protectedProcedure]: the [isAuthenticated] middleware. *)
Definition isAuthenticated {A} (user : option JWTPayload.t)
    (next : JWTPayload.t -> Result A * Server) (s : Server) : Result A * Server :=
  match user with
  | None => (Throw (TRPCError UNAUTHORIZED "You must be logged in to perform this action"), s)
  | Some u => next u
  end.

(** The procedure [message.send]: middleware, input schema, resolver. *)
Definition send_procedure (user : option JWTPayload.t) (input : SendInput)
    (env : Env) (s : Server) : Result MessageEvent.t * Server :=
  isAuthenticated user
    (fun u => match send_input input with
              | [] => send u input env s
              | issues => (Throw (ZodError issues), s)
              end) s.

(** *** [onNew] and [onAnyNew]

    A live subscription is known by the topic it listens on and the
    identity of its [onMessage] closure; that is what its cleanup function
    passes to [messageEmitter.off]. *)
Record Subscription := mkSubscription { topic : string; listener : nat }.

Definition bumpSubscription (s : Server) : Server :=
  {| prisma := prisma s; messageEmitter := messageEmitter s;
     delivered := delivered s; nextSubscription := S (nextSubscription s) |}.

(** The function given to [observable(...)], run when the transport
    subscribes to the returned observable with its [emit]. *)
Definition observe (topic : string) (h : OnMessage) (emit : Observer) (s : Server)
  : Subscription * Server :=
  let i := nextSubscription s in
  (mkSubscription topic i, bumpSubscription (on topic (mkListener i h emit) s)).

Definition onNew (user : JWTPayload.t) (input_threadId : string) (emit : Observer)
    (s : Server) : Result Subscription * Server :=
  match verifyThreadParticipant user input_threadId s with
  | Throw e => (Throw e, s)
  | Return _ =>
      let '(sub, s') :=
        observe (threadTopic input_threadId) (onNew_onMessage input_threadId) emit s in
      (Return sub, s')
  end.

Definition onAnyNew (user : JWTPayload.t) (emit : Observer) (s : Server)
  : Result Subscription * Server :=
  let userThreadIds := getUserThreadIds user s in
  let '(sub, s') := observe "message:new" (onAnyNew_onMessage userThreadIds) emit s in
  (Return sub, s').

(** The cleanup function returned to the observable. *)
Definition unsubscribe (sub : Subscription) (s : Server) : Server :=
  off (topic sub) (listener sub) s.

(** *** Runs of the server

    The requests the process serves, one at a time.  [Write] stands for
    any other procedure that changes the database ([thread.create],
    [thread.markAsRead], the seed script): none of them touches the
    emitter. *)
Inductive Request :=
| Send (user : JWTPayload.t) (input : SendInput) (env : Env)
| OnNew (user : JWTPayload.t) (input_threadId : string) (emit : Observer)
| OnAnyNew (user : JWTPayload.t) (emit : Observer)
| Unsubscribe (sub : Subscription)
| Write (f : Prisma -> Prisma).

Definition serve (r : Request) (s : Server) : Server :=
  match r with
  | Send user input env => (send user input env s).2
  | OnNew user input_threadId emit => (onNew user input_threadId emit s).2
  | OnAnyNew user emit => (onAnyNew user emit s).2
  | Unsubscribe sub => unsubscribe sub s
  | Write f => setPrisma (f (prisma s)) s
  end.

Definition run (rs : list Request) (s : Server) : Server :=
  fold_left (fun s r => serve r s) rs s.


(** *** Invariants of the process state *)

Definition listenersSatisfy (P : Listener -> Prop) (s : Server) : Prop :=
  forall topic ls l, messageEmitter s !! topic = Some ls -> In l ls -> P l.

Definition deliveriesSatisfy (Q : nat * MessageEvent.t -> Prop) (s : Server) : Prop :=
  forall d, In d (delivered s) -> Q d.

(** Every closure was created by a subscription that was already counted,
    and is registered at most once on its topic. *)
Definition wellFormed (s : Server) : Prop :=
  listenersSatisfy (fun l => subscription l < nextSubscription s) s
  /\ deliveriesSatisfy (fun d => d.1 < nextSubscription s) s
  /\ (forall topic ls, messageEmitter s !! topic = Some ls ->
                       List.NoDup (map subscription ls)).

(** Subscription [i] filters with the set [S]: every listener it owns
    carries [S], and everything delivered to it so far lies in [S]. *)
Definition snapshotHeld (i : nat) (S : gset string) (s : Server) : Prop :=
  listenersSatisfy
    (fun l => subscription l = i -> onMessage l = onAnyNew_onMessage S) s
  /\ deliveriesSatisfy (fun d => d.1 = i -> MessageEvent.threadId d.2 ∈ S) s
  /\ i < nextSubscription s.

(** What one publish hands to the streams when no listener throws. *)
Definition forwarded (ls : list Listener) (message : MessageEvent.t)
  : list (nat * MessageEvent.t) :=
  map (fun l => (subscription l, message))
      (List.filter (fun l => forwards (onMessage l) message) ls).

End Router.

(** ** format.ts *)

Module Format.

Section WithLocale.

(** [d.toLocaleDateString()] depends on the locale of the browser. *)
Variable toLocaleDateString : Z -> string.

(** [formatRelativeTime].  [d] is [new Date(date).getTime()] and [now] is
    [new Date().getTime()], in milliseconds, for a valid date. *)
Definition formatRelativeTime (d now : Z) : string :=
  let diff := (now - d)%Z in
  if (diff <? 60000)%Z then "Just now"
  else if (diff <? 3600000)%Z then
    let mins := (diff / 60000)%Z in pretty mins +:+ "m ago"
  else if (diff <? 86400000)%Z then
    let hours := (diff / 3600000)%Z in pretty hours +:+ "h ago"
  else toLocaleDateString d.

End WithLocale.

End Format.

(** ** Where a subscription is registered *)

Module Registration.
Import Router.

(** Every listener of subscription [i] sits on topic [t]. *)
Definition listensOnlyOn (i : nat) (t : string) (s : Server) : Prop :=
  forall topic ls l,
    messageEmitter s !! topic = Some ls -> In l ls -> subscription l = i -> topic = t.

(** No listener of subscription [i] is registered. *)
Definition unregistered (i : nat) (s : Server) : Prop :=
  listenersSatisfy (fun l => subscription l <> i) s.

(** The event [send] builds from its input, the sender's username and the
    column defaults of the new row. *)
Definition sentEvent (user : JWTPayload.t) (username : string) (input : SendInput)
    (env : Env) : MessageEvent.t :=
  {| MessageEvent.id := newId env;
     MessageEvent.content := content input;
     MessageEvent.createdAt := newCreatedAt env;
     MessageEvent.threadId := threadId input;
     MessageEvent.sender := Sender.mk (JWTPayload.userId user) username |}.

(** The database after a successful [send]: the new row is the last one
    and the thread carries the new [updatedAt]. *)
Definition afterSend (user : JWTPayload.t) (input : SendInput) (env : Env)
    (db : Prisma) : Prisma :=
  {| Router.user := Router.user db;
     thread := <[threadId input := now env]> (thread db);
     threadParticipant := threadParticipant db;
     message := message db
                ++ [MessageRow.mk (newId env) (content input) (newCreatedAt env)
                      (threadId input) (JWTPayload.userId user)] |}.

End Registration.

(** ** routers/thread.ts: [create] *)

Module ThreadRouter.
Import Router.

Inductive Code := BAD_REQUEST | NOT_FOUND.

Inductive Thrown :=
| TRPCError (code : Code) (message : string)
| PrismaError.

Inductive Result (A : Type) :=
| Return (a : A)
| Throw (e : Thrown).
Arguments Return {A} a.
Arguments Throw {A} e.

(** [user.findUnique({ where: { username } })]: the id and username of a
    user with that username. *)
Definition user_findUnique (db : Prisma) (username : string) : option (string * string) :=
  find (fun kv => bool_decide (kv.2 = username)) (map_to_list (user db)).

(** The participant rows of a thread. *)
Definition participants (db : Prisma) (threadId : string) : list (string * string) :=
  List.filter (fun p => bool_decide (p.2 = threadId)) (threadParticipant db).

(** The [where] clause of the search for an existing thread: some
    participant is the caller, some participant is the target, and every
    participant is one of the two. *)
Definition isDirectThread (db : Prisma) (me target : string) (threadId : string) : bool :=
  existsb (fun p => bool_decide (p.1 = me)) (participants db threadId)
  && existsb (fun p => bool_decide (p.1 = target)) (participants db threadId)
  && forallb (fun p => bool_decide (p.1 = me) || bool_decide (p.1 = target))
       (participants db threadId).

(** [thread.findFirst({ where })]: the id of a thread that satisfies the
    clause, if there is one. *)
Definition thread_findFirst (db : Prisma) (me target : string) : option string :=
  match find (fun kv => isDirectThread db me target kv.1) (map_to_list (thread db)) with
  | Some kv => Some kv.1
  | None => None
  end.

(** [thread.create({ data: { participants: { create: [me, target] } } })].
    The write is rejected when the thread id is taken, when a participant
    does not exist, or when the two participant rows would be the same row
    (the unique index on userId and threadId). *)
Definition thread_create (db : Prisma) (id : string) (now : nat) (me target : string)
  : option Prisma :=
  match thread db !! id, user db !! me, user db !! target with
  | None, Some _, Some _ =>
      if bool_decide (me = target) then None
      else Some {| user := user db;
                   thread := <[id := now]> (thread db);
                   threadParticipant := threadParticipant db ++ [(me, id); (target, id)];
                   message := message db |}
  | _, _, _ => None
  end.

Definition quote : string := String (Ascii.ascii_of_nat 34) EmptyString.

(** The resolver of [thread.create]; the result is [{ id, alreadyExists }].
    [newId] and [now] are the id and timestamps drawn for a new thread. *)
Definition create (ctx_user : JWTPayload.t) (username : string)
    (newId : string) (now : nat) (db : Prisma)
  : Result (string * bool) * Prisma :=
  if bool_decide (username = JWTPayload.username ctx_user)
  then (Throw (TRPCError BAD_REQUEST "Cannot create a thread with yourself"), db)
  else
    match user_findUnique db username with
    | None =>
        (Throw (TRPCError NOT_FOUND
                  ("User " +:+ quote +:+ username +:+ quote +:+ " not found")), db)
    | Some targetUser =>
        match thread_findFirst db (JWTPayload.userId ctx_user) targetUser.1 with
        | Some existingThread => (Return (existingThread, true), db)
        | None =>
            match thread_create db newId now (JWTPayload.userId ctx_user) targetUser.1 with
            | Some db' => (Return (newId, false), db')
            | None => (Throw PrismaError, db)
            end
        end
    end.

(** The foreign key of the participant rows: each refers to a thread that
    exists. *)
Definition participantsReferToThreads (db : Prisma) : Prop :=
  forall u t, In (u, t) (threadParticipant db) -> is_Some (thread db !! t).

(** No two threads are the direct thread of the same two users. *)
Definition atMostOneDirectThread (db : Prisma) : Prop :=
  forall a b t1 t2,
    is_Some (thread db !! t1) -> is_Some (thread db !! t2) ->
    isDirectThread db a b t1 = true -> isDirectThread db a b t2 = true ->
    t1 = t2.

End ThreadRouter.

(** ** server/src/trpc.ts: the request context, and the header the client
    sends *)

Module ServerContext.

(** [extractToken]: [authHeader?.startsWith("Bearer ")] decides, and
    [slice(7)] is the rest of the header. *)
Definition extractToken (authHeader : option string) : option string :=
  match authHeader with
  | Some h =>
      if String.prefix "Bearer " h
      then Some (String.substring 7 (String.length h - 7) h)
      else None
  | None => None
  end.

(** Truthiness of a string, as in [token ? ... : ...]. *)
Definition truthy (s : string) : bool :=
  match s with EmptyString => false | _ => true end.

Section WithVerifier.

(** [verifyToken] is [jwt.verify] under the server's secret, with every
    failure turned into [null]. *)
Variable verifyToken : string -> option Router.JWTPayload.t.

(** [createExpressContext]: the [user] field of the context built from the
    Authorization header of a request. *)
Definition createExpressContext (authorization : option string)
  : option Router.JWTPayload.t :=
  match extractToken authorization with
  | Some token => if truthy token then verifyToken token else None
  | None => None
  end.

End WithVerifier.

(** The [headers] function of the client's [httpBatchLink]: the
    Authorization header for the token found in localStorage, if any. *)
Definition headers (token : option string) : option string :=
  match token with
  | Some t => if truthy t then Some ("Bearer " +:+ t) else None
  | None => None
  end.

End ServerContext.

(** ** Concrete sessions of the chat view, used in examples *)

Module ChatScenario.
Import ChatView.

Definition hi : Js.jsstring := Js.ofString "hi".

Definition alice : User.t := {| User.id := "u-alice"; User.username := "alice" |}.

Definition hiVariables : SendVariables.t :=
  {| SendVariables.threadId := "T1"; SendVariables.content := hi |}.

(** Type a text into the box and submit it. *)
Definition typeAndSend (text : Js.jsstring) (optimisticId : string) (now : nat)
    (st : State) : State :=
  (handleSend "T1" (Some alice) optimisticId now (setNewMessage text st)).1.

(** One send of "hi", still in flight. *)
Definition onePending : State := typeAndSend hi "optimistic-1" 1 initialState.

(** The placeholder that send leaves in the list. *)
Definition pending1 : OptimisticMessage.t :=
  {| OptimisticMessage.id := "optimistic-1";
     OptimisticMessage.optimisticId := "optimistic-1";
     OptimisticMessage.content := hi;
     OptimisticMessage.createdAt := 1;
     OptimisticMessage.threadId := "T1";
     OptimisticMessage.sender := alice;
     OptimisticMessage.status := sending;
     OptimisticMessage.error := None |}.

(** Two sends of "hi" in quick succession, both still in flight. *)
Definition twoPending : State := typeAndSend hi "optimistic-2" 2 onePending.

(** A send of "hi" that failed, then "hi" typed and sent again. *)
Definition failedThenPending : State :=
  typeAndSend hi "optimistic-2" 3 (onError "Failed to fetch" hiVariables onePending).

(** The server's messages for the first and for the second send. *)
Definition m1 : Message.t :=
  {| Message.id := "m1"; Message.content := hi; Message.createdAt := 4;
     Message.threadId := "T1"; Message.sender := alice |}.

Definition m2 : Message.t :=
  {| Message.id := "m2"; Message.content := hi; Message.createdAt := 5;
     Message.threadId := "T1"; Message.sender := alice |}.

End ChatScenario.

(** ** Concrete runs of the server, used in examples *)

Module RouterScenario.
Import Router.

Definition alice : JWTPayload.t := {| JWTPayload.userId := "u-alice"; JWTPayload.username := "alice" |}.
Definition bob : JWTPayload.t := {| JWTPayload.userId := "u-bob"; JWTPayload.username := "bob" |}.
Definition carol : JWTPayload.t := {| JWTPayload.userId := "u-carol"; JWTPayload.username := "carol" |}.

(** Alice and Bob share thread T1; Carol is in no thread. *)
Definition db : Prisma :=
  {| user := {[ "u-alice" := "alice"; "u-bob" := "bob"; "u-carol" := "carol" ]};
     thread := {[ "T1" := 0 ]};
     threadParticipant := [("u-alice", "T1"); ("u-bob", "T1")];
     message := [] |}.

(** A transport that accepts every event, and one whose [emit.next]
    throws. *)
Definition healthy : Observer := fun _ => Normal.
Definition broken : Observer := fun _ => Abrupt.

Definition hi : Js.jsstring := Js.ofString "hi".

Definition hiToT1 : SendInput := {| threadId := "T1"; content := hi |}.

Definition env1 : Env := {| newId := "m1"; newCreatedAt := 10; now := 10 |}.
Definition env2 : Env := {| newId := "m2"; newCreatedAt := 20; now := 20 |}.

Definition e1 : MessageEvent.t :=
  {| MessageEvent.id := "m1"; MessageEvent.content := hi; MessageEvent.createdAt := 10;
     MessageEvent.threadId := "T1"; MessageEvent.sender := Sender.mk "u-alice" "alice" |}.

Definition e2 : MessageEvent.t :=
  {| MessageEvent.id := "m2"; MessageEvent.content := hi; MessageEvent.createdAt := 20;
     MessageEvent.threadId := "T1"; MessageEvent.sender := Sender.mk "u-alice" "alice" |}.

(** Bob listens on T1 through a transport that throws (subscription 0),
    then Alice listens on T1 through a healthy one (subscription 1). *)
Definition brokenThenHealthy : Server :=
  run [OnNew bob "T1" broken; OnNew alice "T1" healthy] (initialServer db).

Definition bobBroken : Listener := mkListener 0 (onNew_onMessage "T1") broken.
Definition bobHealthy : Listener := mkListener 0 (onNew_onMessage "T1") healthy.
Definition aliceHealthy : Listener := mkListener 1 (onNew_onMessage "T1") healthy.

(** Both listen through healthy transports. *)
Definition twoHealthy : Server :=
  run [OnNew bob "T1" healthy; OnNew alice "T1" healthy] (initialServer db).


(** Carol joins T1. *)
Definition carolJoinsT1 (d : Prisma) : Prisma :=
  {| user := user d; thread := thread d;
     threadParticipant := threadParticipant d ++ [("u-carol", "T1")];
     message := message d |}.

(** Carol opens the global channel (subscription 0), is then added to T1,
    and Alice sends "hi" to T1. *)
Definition joinedAfterSubscribing : list Request :=
  [Write carolJoinsT1; Send alice hiToT1 env1].

(** ... after which Carol opens the global channel again (subscription 1)
    and Alice sends once more. *)
Definition thenResubscribed : list Request :=
  joinedAfterSubscribing ++ [OnAnyNew carol healthy; Send alice hiToT1 env2].

End RouterScenario.

Module ThreadScenario.
Import Router.

(** The database of [RouterScenario] after Carol has opened thread T2 with
    Alice at time 30. *)
Definition carolAndAlice : Prisma :=
  {| user := user RouterScenario.db;
     thread := <["T2" := 30]> (thread RouterScenario.db);
     threadParticipant :=
       threadParticipant RouterScenario.db ++ [("u-carol", "T2"); ("u-alice", "T2")];
     message := [] |}.

End ThreadScenario.

(* ===================================================================== *)
(** * Part II: properties                                                *)
(* ===================================================================== *)

(** ** Input validation *)

Section ValidationFacts.
Import Js.

Lemma falsy_length (s : jsstring) : falsy s = true <-> length s = 0.
Proof. destruct s; simpl; split; intros H; congruence. Qed.

Lemma validateMessage_accepts (content : jsstring) :
  Validation.validateMessage content = None
  <-> 1 <= length (trim content) <= 5000.
Proof.
  unfold Validation.validateMessage, Validation.LIMITS.MESSAGE_MAX_LENGTH.
  destruct (falsy (trim content)) eqn:E.
  - apply falsy_length in E. split; [discriminate | lia].
  - assert (length (trim content) <> 0) as Hlen.
    { intros H. apply falsy_length in H. congruence. }
    destruct (Nat.ltb_spec 5000 (length (trim content))); split;
      solve [discriminate | lia | reflexivity].
Qed.

Lemma send_input_cases (input : Router.SendInput) :
  Router.send_input input =
    (if length (Router.content input) <? 1
     then [Zod.mkIssue Zod.too_small (Some "Message cannot be empty"%string)]
     else [])
    ++ (if 5000 <? length (Router.content input)
        then [Zod.mkIssue Zod.too_big None]
        else []).
Proof.
  unfold Router.send_input, Zod.parseString.
  cbn [map concat Zod.runCheck]. now rewrite app_nil_r.
Qed.

Lemma send_input_accepts (input : Router.SendInput) :
  Router.send_input input = [] <-> 1 <= length (Router.content input) <= 5000.
Proof.
  rewrite send_input_cases.
  destruct (Nat.ltb_spec (length (Router.content input)) 1);
    destruct (Nat.ltb_spec 5000 (length (Router.content input)));
    cbn [app]; split; intros; solve [discriminate | lia | reflexivity].
Qed.

End ValidationFacts.

(** C9.  [message.send] validates the length of [content] at the interface.
    For an authenticated caller, an empty content makes the procedure throw
    the validation error with the issue 'Message cannot be empty', a content
    of more than 5000 code units makes it throw a validation error, in both
    cases before the resolver runs (the server is left as it was); the input
    schema accepts exactly the contents of length 1 to 5000; and the client's
    [validateMessage] accepts exactly the contents whose trimmed form has
    length 1 to 5000. *)
Theorem send_validates_content_length
    (u : Router.JWTPayload.t) (input : Router.SendInput)
    (env : Router.Env) (s : Router.Server) :
  (Router.content input = [] ->
     Router.send_procedure (Some u) input env s =
       (Router.Throw
          (Router.ZodError
             [Zod.mkIssue Zod.too_small (Some "Message cannot be empty"%string)]), s))
  /\ (5000 < length (Router.content input) ->
        Router.send_procedure (Some u) input env s =
          (Router.Throw (Router.ZodError [Zod.mkIssue Zod.too_big None]), s))
  /\ (Router.send_input input = [] <-> 1 <= length (Router.content input) <= 5000)
  /\ (1 <= length (Router.content input) <= 5000 ->
        Router.send_procedure (Some u) input env s = Router.send u input env s)
  /\ (Validation.validateMessage (Router.content input) = None
      <-> 1 <= length (Js.trim (Router.content input)) <= 5000).
Proof.
  split; [|split; [|split; [|split]]].
  - intros E. unfold Router.send_procedure, Router.isAuthenticated.
    rewrite send_input_cases, E. reflexivity.
  - intros H. unfold Router.send_procedure, Router.isAuthenticated.
    rewrite send_input_cases.
    destruct (Nat.ltb_spec (length (Router.content input)) 1); [lia|].
    destruct (Nat.ltb_spec 5000 (length (Router.content input))); [|lia].
    reflexivity.
  - apply send_input_accepts.
  - intros H. apply send_input_accepts in H.
    unfold Router.send_procedure, Router.isAuthenticated. now rewrite H.
  - apply validateMessage_accepts.
Qed.

(** ** Reconnection delay *)

Section BackoffFacts.
Local Open Scope Q_scope.

(** The capped exponential delay before jitter. *)
Lemma capped_delay_nonneg (k : Z) : 0 <= Qmin (1000 * 2 ^ k) 30000.
Proof.
  apply Q.min_glb; [|discriminate].
  apply Qmult_le_0_compat; [discriminate|].
  apply Qpower_0_le. discriminate.
Qed.

(** The jitter term moves the delay by at most a tenth either way. *)
Lemma getReconnectDelay_tenth (k : Z) (random : Q) :
  0 <= random -> random < 1 ->
  0.9 * Qmin (1000 * 2 ^ k) 30000 <= Trpc.getReconnectDelay k random
  /\ Trpc.getReconnectDelay k random <= 1.1 * Qmin (1000 * 2 ^ k) 30000.
Proof.
  intros H0 H1. unfold Trpc.getReconnectDelay. cbv zeta.
  pose proof (capped_delay_nonneg k) as Hd.
  set (d := Qmin (1000 * 2 ^ k) 30000) in *.
  split; nra.
Qed.

End BackoffFacts.

(** The bounds do not depend on exact arithmetic: they hold for every
    rounding with relative error at most 1/1000 per operation (binary64
    rounds with relative error at most 2^-53; the operands here are far from
    the underflow range). *)
Section RoundedBackoff.
Local Open Scope Q_scope.

Variable fl : Q -> Q.
Variable u : Q.
Hypothesis u_range : 0 <= u /\ u <= 1 # 1000.
Hypothesis fl_nonneg : forall x, 0 <= x -> (1 - u) * x <= fl x /\ fl x <= (1 + u) * x.
Hypothesis fl_nonpos : forall x, x <= 0 -> (1 + u) * x <= fl x /\ fl x <= (1 - u) * x.

Lemma fl_magnitude (x bound : Q) :
  - bound <= x -> x <= bound -> 0 <= bound ->
  - ((1001 # 1000) * bound) <= fl x /\ fl x <= (1001 # 1000) * bound.
Proof.
  intros Hlo Hhi Hb. destruct u_range as [Hu0 Hu1].
  destruct (Qlt_le_dec x 0) as [Hneg|Hpos].
  - destruct (fl_nonpos x (Qlt_le_weak _ _ Hneg)) as [H1 H2]. split; nra.
  - destruct (fl_nonneg x Hpos) as [H1 H2]. split; nra.
Qed.

Lemma getReconnectDelay_fl_bounds (k : Z) (random : Q) :
  0 <= random -> random < 1 ->
  0.8 * Qmin (1000 * 2 ^ k) 30000 <= Trpc.getReconnectDelay_fl fl k random
  /\ Trpc.getReconnectDelay_fl fl k random <= 1.2 * Qmin (1000 * 2 ^ k) 30000.
Proof.
  intros H0 H1. unfold Trpc.getReconnectDelay_fl. cbv zeta.
  pose proof (capped_delay_nonneg k) as Hd.
  set (d := Qmin (1000 * 2 ^ k) 30000) in *.
  destruct u_range as [Hu0 Hu1].
  (* the literal 0.2 *)
  destruct (fl_nonneg 0.2 ltac:(lra)) as [Ha1 Ha2].
  set (a := fl 0.2) in *.
  (* delay * 0.2 *)
  assert (0 <= d * a /\ d * a <= (2002 # 10000) * d) as [Hx1 Hx2] by (split; nra).
  destruct (fl_nonneg (d * a) Hx1) as [Hb1 Hb2].
  set (b := fl (d * a)) in *.
  assert (0 <= b /\ b <= (2005 # 10000) * d) as [Hb3 Hb4] by (split; nra).
  (* Math.random() - 0.5 *)
  destruct (fl_magnitude (random - 0.5) (1 # 2)) as [Hc1 Hc2]; [lra|lra|lra|].
  set (c := fl (random - 0.5)) in *.
  (* the jitter *)
  assert (- ((1004 # 10000) * d) <= b * c /\ b * c <= (1004 # 10000) * d) as [Hp1 Hp2]
    by (split; nra).
  destruct (fl_magnitude (b * c) ((1004 # 10000) * d)) as [Hj1 Hj2]; [lra|lra|lra|].
  set (j := fl (b * c)) in *.
  (* delay + jitter *)
  assert (0 <= d + j) as Hs by lra.
  destruct (fl_nonneg (d + j) Hs) as [Hr1 Hr2].
  split; nra.
Qed.

End RoundedBackoff.

(** With the identity for [fl] the rounded computation is the exact one. *)
Lemma getReconnectDelay_fl_exact (k : Z) (random : Q) :
  Trpc.getReconnectDelay_fl (fun x => x) k random = Trpc.getReconnectDelay k random.
Proof. reflexivity. Qed.

(** C5.  For every attempt number [k >= 0] and every random draw in
    [[0, 1)], [getReconnectDelay k] lies in the closed interval from
    [0.8 * min (1000 * 2^k) 30000] to [1.2 * min (1000 * 2^k) 30000]. *)
Theorem getReconnectDelay_within_jitter_bounds (k : Z) (random : Q) :
  (0 <= k)%Z -> (0 <= random)%Q -> (random < 1)%Q ->
  (0.8 * Qmin (1000 * 2 ^ k) 30000 <= Trpc.getReconnectDelay k random
   /\ Trpc.getReconnectDelay k random <= 1.2 * Qmin (1000 * 2 ^ k) 30000)%Q.
Proof.
  intros _ H0 H1.
  destruct (getReconnectDelay_tenth k random H0 H1) as [Hlo Hhi].
  pose proof (capped_delay_nonneg k) as Hd.
  set (d := Qmin (1000 * 2 ^ k) 30000) in *.
  split; lra.
Qed.

(** ** Connection state machine *)

Section ConnectionFacts.
Import Trpc.

Lemma run_app (evs1 evs2 : list TransportEvent) (c : Client) :
  run (evs1 ++ evs2) c = run evs2 (run evs1 c).
Proof. unfold run. apply fold_left_app. Qed.

Lemma handle_token (ev : TransportEvent) (c : Client) :
  token (handle ev c) = token c.
Proof.
  destruct ev; [reflexivity|].
  unfold handle, onClose, getAuthToken, incrementReconnectAttempts.
  destruct (token c) eqn:E; [destruct (shouldReconnect _)|]; simpl; congruence.
Qed.


Lemma run_token (evs : list TransportEvent) (c : Client) :
  token (run evs c) = token c.
Proof.
  revert c. induction evs as [|ev evs IH]; intros c; [reflexivity|].
  simpl. change (token (run evs (handle ev c)) = token c).
  now rewrite IH, handle_token.
Qed.





End ConnectionFacts.


(** ** Reconciliation of optimistic sends *)

(** Name the anonymous test [m.id === message.id] of the handlers. *)
Ltac name_id_test m :=
  change (fun m0 => bool_decide (ChatView.id m0 = ChatView.Message.id m))
    with (ChatView.hasId (ChatView.Message.id m)).

Section ReconciliationFacts.
Import ChatView.

Lemma filter_all {A} (p : A -> bool) (l : list A) :
  (forall x, In x l -> p x = true) -> List.filter p l = l.
Proof.
  induction l as [|x l IH]; intros H; [reflexivity|].
  simpl. rewrite (H x) by now left.
  f_equal. apply IH. intros y Hy. apply H. now right.
Qed.

Lemma filter_filter_same {A} (p : A -> bool) (l : list A) :
  List.filter p (List.filter p l) = List.filter p l.
Proof.
  apply filter_all. intros x Hx. now apply filter_In in Hx.
Qed.

Lemma countId_app (i : string) (l1 l2 : list DisplayMessage) :
  countId i (l1 ++ l2) = countId i l1 + countId i l2.
Proof. unfold countId. now rewrite List.filter_app, length_app. Qed.

Lemma countId_filter_le (i : string) (p : DisplayMessage -> bool) (l : list DisplayMessage) :
  countId i (List.filter p l) <= countId i l.
Proof.
  unfold countId. induction l as [|x l IH]; [reflexivity|].
  simpl. destruct (p x); simpl; destruct (bool_decide (id x = i)); simpl; lia.
Qed.

Lemma countId_removeFirst_le (i : string) (p : DisplayMessage -> bool) (l : list DisplayMessage) :
  countId i (removeFirst p l) <= countId i l.
Proof.
  unfold countId. induction l as [|x l IH]; [reflexivity|].
  simpl. destruct (p x); simpl; destruct (bool_decide (id x = i)); simpl; lia.
Qed.

Lemma countId_In (x : DisplayMessage) (l : list DisplayMessage) :
  In x l -> 1 <= countId (id x) l.
Proof.
  unfold countId. induction l as [|y l IH]; intros H; [contradiction|].
  simpl. destruct H as [-> | H].
  - rewrite bool_decide_true by reflexivity. simpl. lia.
  - specialize (IH H). destruct (bool_decide (id y = id x)); simpl; lia.
Qed.

Lemma existsb_countId (i : string) (l : list DisplayMessage) :
  existsb (hasId i) l = false <-> countId i l = 0.
Proof.
  unfold countId, hasId. induction l as [|x l IH]; [easy|].
  simpl. destruct (bool_decide (id x = i)); simpl; [easy|exact IH].
Qed.

Lemma existsb_In (x : DisplayMessage) (l : list DisplayMessage) :
  In x l -> existsb (hasId (id x)) l = true.
Proof.
  intros H. apply existsb_exists. exists x. split; [exact H|].
  unfold hasId. now apply bool_decide_true.
Qed.

(** A push for an id that is already listed is dropped. *)
Lemma onData_present (m : Message.t) (l : list DisplayMessage) :
  existsb (hasId (Message.id m)) l = true -> onData_localMessages m l = l.
Proof.
  intros H. unfold onData_localMessages.
  name_id_test m.
  now rewrite H.
Qed.

(** A confirmation for an id that is already listed changes nothing when
    no optimistic entry carries the confirmed content. *)
Lemma onSuccess_present (m : Message.t) (v : SendVariables.t) (l : list DisplayMessage) :
  existsb (hasId (Message.id m)) l = true ->
  (forall o, In (Optimistic o) l -> OptimisticMessage.content o <> SendVariables.content v) ->
  onSuccess_localMessages m v l = l.
Proof.
  intros Hid Hnone. unfold onSuccess_localMessages. cbv zeta.
  change (fun m0 => negb (isOptimisticMessage m0)
                    || negb (bool_decide (content m0 = SendVariables.content v)))
    with (kept (SendVariables.content v)).
  name_id_test m.
  rewrite (filter_all (kept (SendVariables.content v)) l).
  - now rewrite Hid.
  - intros x Hx. unfold kept. destruct x as [c|o]; [reflexivity|].
    simpl. rewrite bool_decide_false; [reflexivity|]. now apply Hnone.
Qed.

(** After either arrival the confirmed message is in the list. *)
Lemma arrive_installs (a : Arrival) (m : Message.t) (l : list DisplayMessage) :
  existsb (hasId (Message.id m)) (arrive a m l) = true.
Proof.
  assert (forall l', existsb (hasId (Message.id m)) (l' ++ [Confirmed m]) = true) as Happ.
  { intros l'. rewrite existsb_app. simpl. unfold hasId at 2. simpl.
    rewrite bool_decide_true by reflexivity. now rewrite orb_true_r. }
  destruct a as [|v]; simpl.
  - unfold onData_localMessages.
    name_id_test m.
    destruct (existsb (hasId (Message.id m)) l) eqn:E; [exact E|].
    destruct (find _ l); apply Happ.
  - unfold onSuccess_localMessages. cbv zeta.
    name_id_test m.
    destruct (existsb (hasId (Message.id m)) (List.filter _ l)) eqn:E; [exact E|].
    apply Happ.
Qed.

(** A confirmation leaves no optimistic entry with the confirmed content. *)
Lemma onSuccess_clears (m : Message.t) (v : SendVariables.t) (l : list DisplayMessage) :
  forall o, In (Optimistic o) (onSuccess_localMessages m v l) ->
            OptimisticMessage.content o <> SendVariables.content v.
Proof.
  intros o Hin. unfold onSuccess_localMessages in Hin. cbv zeta in Hin.
  assert (In (Optimistic o)
            (List.filter (fun m0 => negb (isOptimisticMessage m0)
                                    || negb (bool_decide (content m0 = SendVariables.content v))) l))
    as Hf.
  { destruct (existsb _ _); [exact Hin|].
    apply in_app_or in Hin. destruct Hin as [Hin|[Hin|[]]]; [exact Hin|discriminate]. }
  apply filter_In in Hf. destruct Hf as [_ Hk]. simpl in Hk.
  now apply negb_true_iff, bool_decide_eq_false in Hk.
Qed.

(** The first arrival of an id that is not yet listed puts exactly one
    entry with that id into the list, the confirmed message itself. *)
Lemma arrive_first_count (a : Arrival) (m : Message.t) (l : list DisplayMessage) :
  countId (Message.id m) l = 0 ->
  countId (Message.id m) (arrive a m l) = 1 /\ In (Confirmed m) (arrive a m l).
Proof.
  intros H0.
  assert (countId (Message.id m) [Confirmed m] = 1) as Hone.
  { unfold countId. simpl. now rewrite bool_decide_true. }
  destruct a as [|v]; simpl.
  - unfold onData_localMessages.
    name_id_test m.
    rewrite (proj2 (existsb_countId _ _) H0).
    destruct (find _ l).
    + split; [|apply in_or_app; right; now left].
      rewrite countId_app, Hone.
      pose proof (countId_removeFirst_le (Message.id m) (matchesOptimistic m) l). lia.
    + split; [|apply in_or_app; right; now left].
      rewrite countId_app, Hone. lia.
  - unfold onSuccess_localMessages. cbv zeta.
    name_id_test m.
    set (f := List.filter _ l).
    assert (countId (Message.id m) f = 0) as Hf.
    { pose proof (countId_filter_le (Message.id m)
                    (fun m0 => negb (isOptimisticMessage m0)
                               || negb (bool_decide (content m0 = SendVariables.content v))) l).
      fold f in H. lia. }
    rewrite (proj2 (existsb_countId _ _) Hf).
    split; [|apply in_or_app; right; now left].
    rewrite countId_app, Hone. lia.
Qed.

(** A later arrival keeps the single entry. *)
Lemma arrive_later_count (a : Arrival) (m : Message.t) (l : list DisplayMessage) :
  countId (Message.id m) l = 1 -> In (Confirmed m) l ->
  countId (Message.id m) (arrive a m l) = 1.
Proof.
  intros H1 Hin. destruct a as [|v]; simpl.
  - rewrite onData_present; [exact H1|]. now apply (existsb_In (Confirmed m)).
  - unfold onSuccess_localMessages. cbv zeta.
    name_id_test m.
    set (p := fun m0 => negb (isOptimisticMessage m0)
                        || negb (bool_decide (content m0 = SendVariables.content v))).
    assert (In (Confirmed m) (List.filter p l)) as Hf
      by (apply filter_In; split; [exact Hin|reflexivity]).
    pose proof (existsb_In (Confirmed m) _ Hf) as He.
    change (id (Confirmed m)) with (Message.id m) in He. rewrite He.
    pose proof (countId_filter_le (Message.id m) p l).
    pose proof (countId_In (Confirmed m) _ Hf) as Hge. simpl in Hge. lia.
Qed.

End ReconciliationFacts.

Section ReconciliationRace.
Import ChatView.

Lemma find_first {A} (p : A -> bool) (l1 l2 : list A) (x : A) :
  (forall y, In y l1 -> p y = false) -> p x = true ->
  find p (l1 ++ x :: l2) = Some x.
Proof.
  intros Hl1 Hx. induction l1 as [|y l1 IH]; simpl; [now rewrite Hx|].
  rewrite (Hl1 y) by now left. apply IH. intros z Hz. apply Hl1. now right.
Qed.



End ReconciliationRace.

(** C3 (as the code has it).  Reconciliation on the confirmed message id:
    once either the confirmation or the push has installed the message,
    a later push with the same id leaves the list unchanged; a later
    confirmation leaves it unchanged when no optimistic entry with the
    confirmed content is left in the list, which is always so when the
    confirmation itself came first; and if the id was not listed before the
    first arrival, exactly one entry with that id exists after the later
    arrival, whichever it is. *)
Theorem reconciliation_idempotent_on_message_id
    (l : list ChatView.DisplayMessage) (m : ChatView.Message.t) (first : ChatView.Arrival) :
  let l1 := ChatView.arrive first m l in
  ChatView.arrive ChatView.Push m l1 = l1
  /\ (forall v,
        (forall o, In (ChatView.Optimistic o) l1 ->
                   ChatView.OptimisticMessage.content o <> ChatView.SendVariables.content v) ->
        ChatView.arrive (ChatView.Confirmation v) m l1 = l1)
  /\ (forall v, first = ChatView.Confirmation v ->
                ChatView.arrive (ChatView.Confirmation v) m l1 = l1)
  /\ (ChatView.countId (ChatView.Message.id m) l = 0 ->
      forall later, ChatView.countId (ChatView.Message.id m) (ChatView.arrive later m l1) = 1).
Proof.
  intros l1. pose proof (arrive_installs first m l) as Hinst. fold l1 in Hinst.
  split; [|split; [|split]].
  - simpl. now apply onData_present.
  - intros v Hnone. simpl. now apply onSuccess_present.
  - intros v ->. simpl. apply onSuccess_present; [exact Hinst|].
    unfold l1. simpl. apply onSuccess_clears.
  - intros H0 later. destruct (arrive_first_count first m l H0) as [H1 Hin].
    now apply arrive_later_count.
Qed.

(** C3 as stated fails: a send of "hi" failed and left its placeholder, "hi"
    was sent again, and the push for the second send arrived first.  The
    push replaced the failed placeholder; the confirmation that follows finds
    the id already listed and still removes the placeholder that was in
    flight. *)
Lemma later_confirmation_changes_list :
  let l := ChatView.localMessages ChatScenario.failedThenPending in
  let l1 := ChatView.arrive ChatView.Push ChatScenario.m2 l in
  ChatView.countId (ChatView.Message.id ChatScenario.m2) l = 0
  /\ length l1 = 2
  /\ ChatView.arrive (ChatView.Confirmation ChatScenario.hiVariables) ChatScenario.m2 l1
     = [ChatView.Confirmed ChatScenario.m2]
  /\ ChatView.arrive (ChatView.Confirmation ChatScenario.hiVariables) ChatScenario.m2 l1
     <> l1.
Proof.
  cbv zeta. split; [reflexivity|]. split; [reflexivity|].
  assert (ChatView.arrive (ChatView.Confirmation ChatScenario.hiVariables) ChatScenario.m2
            (ChatView.arrive ChatView.Push ChatScenario.m2
               (ChatView.localMessages ChatScenario.failedThenPending))
          = [ChatView.Confirmed ChatScenario.m2]) as E by (vm_compute; reflexivity).
  split; [exact E|].
  rewrite E. intros H. apply (f_equal (@length _)) in H.
  vm_compute in H. discriminate.
Qed.



(** ** The event emitter *)

Section EmitterFacts.
Import Router.

(** When no listener throws, every listener is called, in order. *)
Lemma dispatch_normal (ls : list Listener) (e : MessageEvent.t)
    (out : list (nat * MessageEvent.t)) :
  (forall l, In l ls -> forwards (onMessage l) e = true -> emit_next l e = Normal) ->
  dispatch ls e out = (out ++ forwarded ls e, Normal).
Proof.
  revert out. induction ls as [|l ls IH]; intros out H.
  - simpl. now rewrite app_nil_r.
  - simpl. unfold call, forwarded. simpl.
    destruct (forwards (onMessage l) e) eqn:F.
    + rewrite (H l) by first [now left | reflexivity | assumption].
      rewrite IH by (intros l' Hl'; apply H; now right).
      simpl. now rewrite <- app_assoc.
    + rewrite IH by (intros l' Hl'; apply H; now right). reflexivity.
Qed.

(** The first listener that throws ends the dispatch: the listeners
    before it were called, those after it are not. *)
Lemma dispatch_abrupt (before after : list Listener) (h : Listener)
    (e : MessageEvent.t) (out : list (nat * MessageEvent.t)) :
  (forall l, In l before -> forwards (onMessage l) e = true -> emit_next l e = Normal) ->
  forwards (onMessage h) e = true -> emit_next h e = Abrupt ->
  dispatch (before ++ h :: after) e out = (out ++ forwarded before e, Abrupt).
Proof.
  revert out. induction before as [|l before IH]; intros out H Hf Ht.
  - simpl. unfold call. rewrite Hf, Ht. now rewrite app_nil_r.
  - simpl. unfold call, forwarded. simpl.
    destruct (forwards (onMessage l) e) eqn:F.
    + rewrite (H l) by first [now left | reflexivity | assumption].
      rewrite IH by (try assumption; intros l' Hl'; apply H; now right).
      simpl. now rewrite <- app_assoc.
    + rewrite IH by (try assumption; intros l' Hl'; apply H; now right). reflexivity.
Qed.

Lemma emit_messageEmitter (topic : string) (e : MessageEvent.t) (s : Server) :
  messageEmitter (emit topic e s).1 = messageEmitter s
  /\ prisma (emit topic e s).1 = prisma s
  /\ nextSubscription (emit topic e s).1 = nextSubscription s.
Proof.
  unfold emit. destruct (dispatch _ _ _) as [out c]. now simpl.
Qed.

(** Whatever happens, a dispatch only appends to the log, and only events
    that a listener of the topic forwards. *)
Lemma dispatch_appends (ls : list Listener) (e : MessageEvent.t)
    (out : list (nat * MessageEvent.t)) :
  exists called,
    (dispatch ls e out).1 = out ++ map (fun l => (subscription l, e)) called
    /\ (forall l, In l called -> In l ls /\ forwards (onMessage l) e = true).
Proof.
  revert out. induction ls as [|l ls IH]; intros out.
  - exists []. simpl. now rewrite app_nil_r.
  - simpl. unfold call.
    destruct (forwards (onMessage l) e) eqn:F.
    + destruct (emit_next l e).
      * destruct (IH (out ++ [(subscription l, e)])) as (called & Hc & Hin).
        exists (l :: called). split.
        -- rewrite Hc. simpl. now rewrite <- app_assoc.
        -- intros l' [<-|Hl']; [split; [now left|exact F]|].
           destruct (Hin l' Hl'). split; [now right|assumption].
      * exists []. simpl. now rewrite app_nil_r.
    + destruct (IH out) as (called & Hc & Hin).
      exists called. split; [exact Hc|].
      intros l' Hl'. destruct (Hin l' Hl'). split; [now right|assumption].
Qed.

End EmitterFacts.

(** ** The membership gate *)

Section GateFacts.
Import Router.

Lemma findUnique_None (db : Prisma) (userId threadId : string) :
  threadParticipant_findUnique db userId threadId = None
  <-> ~ In (userId, threadId) (threadParticipant db).
Proof.
  unfold threadParticipant_findUnique. split.
  - intros H Hin. apply (find_none _ _ H) in Hin. simpl in Hin.
    now rewrite !bool_decide_true in Hin.
  - intros H. destruct (find _ _) as [[u t]|] eqn:E; [|reflexivity].
    apply find_some in E. destruct E as [Hin Hp]. simpl in Hp.
    apply andb_true_iff in Hp. destruct Hp as [Hu Ht].
    apply bool_decide_eq_true in Hu, Ht. subst. contradiction.
Qed.

Lemma verifyThreadParticipant_forbidden (user : JWTPayload.t) (threadId : string) (s : Server) :
  ~ In (JWTPayload.userId user, threadId) (threadParticipant (prisma s)) ->
  verifyThreadParticipant user threadId s
  = Throw (TRPCError FORBIDDEN "You are not a participant in this thread").
Proof.
  intros H. unfold verifyThreadParticipant.
  now rewrite (proj2 (findUnique_None _ _ _) H).
Qed.

(** Whatever the input, the whole [message.send] procedure leaves the
    server untouched when the caller is not a participant. *)
Lemma send_procedure_non_participant (user : JWTPayload.t) (input : SendInput)
    (env : Env) (s : Server) :
  ~ In (JWTPayload.userId user, threadId input) (threadParticipant (prisma s)) ->
  exists e, send_procedure (Some user) input env s = (Throw e, s).
Proof.
  intros H. unfold send_procedure, isAuthenticated.
  destruct (send_input input) as [|issue issues].
  - unfold send. rewrite (verifyThreadParticipant_forbidden _ _ _ H). eauto.
  - eauto.
Qed.

(** The event a successful [send] returns (and publishes) carries the
    thread and content of the request, so the listener of an [onNew]
    subscription to that thread forwards it. *)
Lemma send_returns_event_of_thread (user : JWTPayload.t) (input : SendInput)
    (env : Env) (s s' : Server) (e : MessageEvent.t) :
  send user input env s = (Return e, s') ->
  MessageEvent.threadId e = threadId input
  /\ MessageEvent.content e = content input
  /\ forwards (onNew_onMessage (threadId input)) e = true.
Proof.
  unfold send.
  destruct (verifyThreadParticipant _ _ _); [|discriminate].
  destruct (message_create _ _ _ _ _ _) as [[[row sender] db1]|] eqn:Ec; [|discriminate].
  unfold message_create in Ec.
  destruct (thread (prisma s) !! threadId input); [|discriminate].
  destruct (Router.user (prisma s) !! JWTPayload.userId user); [|discriminate].
  injection Ec as <- <- <-.
  destruct (thread_update _ _ _) as [db2|]; [|discriminate].
  destruct (emit (threadTopic _) _ _) as [s1 [|]]; [|discriminate].
  destruct (emit "message:new" _ _) as [s2 [|]]; [|discriminate].
  intros [= <- _]. simpl. repeat split. now apply bool_decide_true.
Qed.

End GateFacts.

(** C1.  For every authenticated subscriber and every thread [T] of which
    the subscriber is not a recorded participant, [message.onNew] with
    [threadId = T] throws FORBIDDEN and returns no subscription; the server
    is left exactly as it was: no listener is registered on the emitter and
    nothing is delivered. *)
Theorem onNew_forbidden_for_non_participant
    (user : Router.JWTPayload.t) (T : string) (emit : Router.Observer) (s : Router.Server) :
  ~ In (Router.JWTPayload.userId user, T) (Router.threadParticipant (Router.prisma s)) ->
  Router.onNew user T emit s
  = (Router.Throw
       (Router.TRPCError Router.FORBIDDEN "You are not a participant in this thread"), s).
Proof.
  intros H. unfold Router.onNew.
  now rewrite (verifyThreadParticipant_forbidden _ _ _ H).
Qed.

(** C10.  For every authenticated user who is not a participant of thread
    [T], the resolver of [message.send] throws FORBIDDEN before any state
    change: the server, with its message rows, the thread's [updatedAt] and
    everything delivered on either topic, is exactly as before. *)
Theorem send_forbidden_for_non_participant
    (user : Router.JWTPayload.t) (input : Router.SendInput)
    (env : Router.Env) (s : Router.Server) :
  ~ In (Router.JWTPayload.userId user, Router.threadId input)
       (Router.threadParticipant (Router.prisma s)) ->
  Router.send user input env s
  = (Router.Throw
       (Router.TRPCError Router.FORBIDDEN "You are not a participant in this thread"), s).
Proof.
  intros H. unfold Router.send.
  now rewrite (verifyThreadParticipant_forbidden _ _ _ H).
Qed.

(** C7 (as the code has it).  Dispatch does not isolate listeners.  When the
    listeners of a topic are [before ++ h :: after], those in [before] return
    normally and [h] throws on the event, [emit] hands the event to the
    listeners in [before] (each forwards it if its own filter passes), calls
    none of the listeners in [after], and completes abruptly: the exception
    reaches the caller of [emit].  When no listener throws, every listener of
    the topic is served and [emit] completes normally. *)
Theorem emit_stops_at_first_throwing_listener
    (s : Router.Server) (topic : string) (before after : list Router.Listener)
    (h : Router.Listener) (e : Router.MessageEvent.t) :
  Router.listeners topic s = before ++ h :: after ->
  (forall l, In l before -> Router.forwards (Router.onMessage l) e = true ->
             Router.emit_next l e = Router.Normal) ->
  Router.forwards (Router.onMessage h) e = true ->
  (Router.emit_next h e = Router.Abrupt ->
     Router.emit topic e s
     = (Router.setDelivered (Router.delivered s ++ Router.forwarded before e) s,
        Router.Abrupt))
  /\ ((Router.emit_next h e = Router.Normal /\
       forall l, In l after -> Router.forwards (Router.onMessage l) e = true ->
                 Router.emit_next l e = Router.Normal) ->
      Router.emit topic e s
      = (Router.setDelivered
           (Router.delivered s ++ Router.forwarded (before ++ h :: after) e) s,
         Router.Normal)).
Proof.
  intros Hls Hbefore Hf. split.
  - intros Ht. unfold Router.emit.
    now rewrite Hls, (dispatch_abrupt before after h e _ Hbefore Hf Ht).
  - intros [Hn Hafter]. unfold Router.emit. rewrite Hls, dispatch_normal; [reflexivity|].
    intros l Hl Hfl. apply in_app_or in Hl.
    destruct Hl as [Hl|[<-|Hl]]; [now apply Hbefore|exact Hn|now apply Hafter].
Qed.

(** C7 as stated fails: Bob's listener on T1 throws, Alice's listener was
    registered after it.  Alice's [send] to T1 creates the row, then the
    dispatch reaches Bob's listener first: the exception propagates out of
    [send], and Alice's own listener never receives the event. *)
Lemma throwing_listener_starves_the_rest :
  let '(r, s) := Router.send RouterScenario.alice RouterScenario.hiToT1
                   RouterScenario.env1 RouterScenario.brokenThenHealthy in
  map Router.subscription
      (Router.listeners (Router.threadTopic "T1") RouterScenario.brokenThenHealthy)
  = [0; 1]
  /\ r = Router.Throw Router.ListenerError
  /\ Router.stream 1 s = []
  /\ length (Router.message (Router.prisma s)) = 1.
Proof. vm_compute. repeat split; reflexivity. Qed.

(** ** Streams *)

Section StreamFacts.
Import Router.

(** The part of a delivery log that belongs to one subscription. *)
Lemma stream_delivered (i : nat) (s : Server) (extra : list (nat * MessageEvent.t)) :
  stream i (setDelivered (delivered s ++ extra) s)
  = stream i s ++ map snd (List.filter (fun d => bool_decide (d.1 = i)) extra).
Proof. unfold stream. simpl. now rewrite List.filter_app, map_app. Qed.



Lemma listeners_lookup (topic : string) (s : Server) (l : Listener) :
  In l (listeners topic s) ->
  exists ls, messageEmitter s !! topic = Some ls /\ listeners topic s = ls.
Proof.
  unfold listeners. destruct (messageEmitter s !! topic) as [ls|]; simpl; [eauto|contradiction].
Qed.


End StreamFacts.



(** ** Invariants along runs of the server *)

Section InvariantFacts.
Import Router.

Variable P : Listener -> Prop.
Variable Q : nat * MessageEvent.t -> Prop.
Hypothesis PQ :
  forall l e, P l -> forwards (onMessage l) e = true -> Q (subscription l, e).

Lemma emit_satisfies (topic : string) (e : MessageEvent.t) (s : Server) :
  listenersSatisfy P s -> deliveriesSatisfy Q s ->
  listenersSatisfy P (emit topic e s).1 /\ deliveriesSatisfy Q (emit topic e s).1.
Proof.
  intros HP HQ. unfold emit.
  destruct (dispatch_appends (listeners topic s) e (delivered s)) as (called & Hout & Hcalled).
  destruct (dispatch _ _ _) as [out c]. simpl in Hout. subst out. split.
  - exact HP.
  - intros d Hd. simpl in Hd. apply in_app_or in Hd. destruct Hd as [Hd|Hd].
    + now apply HQ.
    + apply in_map_iff in Hd. destruct Hd as (l & <- & Hl).
      destruct (Hcalled l Hl) as [Hin Hf]. apply PQ; [|exact Hf].
      destruct (listeners_lookup topic s l Hin) as (ls & Hlookup & Hls).
      apply (HP topic ls l Hlookup). now rewrite <- Hls.
Qed.

Lemma send_satisfies (user : JWTPayload.t) (input : SendInput) (env : Env) (s : Server) :
  listenersSatisfy P s -> deliveriesSatisfy Q s ->
  listenersSatisfy P (send user input env s).2
  /\ deliveriesSatisfy Q (send user input env s).2.
Proof.
  intros HP HQ. unfold send.
  destruct (verifyThreadParticipant _ _ _); [|now split].
  destruct (message_create _ _ _ _ _ _) as [[[row sender] db1]|]; [|now split].
  destruct (thread_update _ _ _) as [db2|]; [|now split].
  set (ev := MessageEvent.mk _ _ _ _ _).
  destruct (emit_satisfies (threadTopic (threadId input)) ev (setPrisma db2 s) HP HQ)
    as [HP1 HQ1].
  destruct (emit _ ev (setPrisma db2 s)) as [s1 c1]. simpl in HP1, HQ1.
  destruct c1; [|now split].
  destruct (emit_satisfies "message:new" ev s1 HP1 HQ1) as [HP2 HQ2].
  destruct (emit "message:new" ev s1) as [s2 c2]. simpl in HP2, HQ2.
  destruct c2; now split.
Qed.

Lemma on_satisfies (topic : string) (l : Listener) (s : Server) :
  listenersSatisfy P s -> P l -> listenersSatisfy P (on topic l s).
Proof.
  intros HP Hl topic' ls l' Hlookup Hin. simpl in Hlookup.
  destruct (decide (topic = topic')) as [<-|Hne].
  - rewrite lookup_insert_eq in Hlookup. injection Hlookup as <-.
    apply in_app_or in Hin. destruct Hin as [Hin|[<-|[]]]; [|exact Hl].
    destruct (listeners_lookup topic s l' Hin) as (ls0 & Hl0 & Hls0).
    apply (HP topic ls0 l' Hl0). now rewrite <- Hls0.
  - rewrite lookup_insert_ne in Hlookup by assumption.
    now apply (HP topic' ls l').
Qed.

Lemma removeLast_In (i : nat) (ls : list Listener) (l : Listener) :
  In l (removeLast i ls).1 -> In l ls.
Proof.
  induction ls as [|l0 ls IH]; simpl; [tauto|].
  destruct (removeLast i ls) as [r found]. simpl in IH.
  destruct found; simpl.
  - intros [->|H]; [now left|right; now apply IH].
  - destruct (bool_decide (subscription l0 = i)); simpl.
    + intros H. now right.
    + tauto.
Qed.

Lemma off_satisfies (topic : string) (i : nat) (s : Server) :
  listenersSatisfy P s -> listenersSatisfy P (off topic i s).
Proof.
  intros HP. unfold off. destruct (messageEmitter s !! topic) as [ls0|] eqn:E; [|exact HP].
  intros topic' ls l Hlookup Hin. simpl in Hlookup.
  destruct (decide (topic = topic')) as [<-|Hne].
  - destruct (removeLast i ls0).1 as [|x r] eqn:Er.
    + now rewrite lookup_delete_eq in Hlookup.
    + rewrite lookup_insert_eq in Hlookup. injection Hlookup as <-.
      apply (HP topic ls0 l E). apply (removeLast_In i). now rewrite Er.
  - destruct (removeLast i ls0).1 as [|x r].
    + rewrite lookup_delete_ne in Hlookup by assumption. now apply (HP topic' ls l).
    + rewrite lookup_insert_ne in Hlookup by assumption. now apply (HP topic' ls l).
Qed.

Lemma observe_satisfies (topic : string) (h : OnMessage) (emit : Observer) (s : Server) :
  listenersSatisfy P s -> deliveriesSatisfy Q s ->
  P (mkListener (nextSubscription s) h emit) ->
  listenersSatisfy P (observe topic h emit s).2
  /\ deliveriesSatisfy Q (observe topic h emit s).2.
Proof.
  intros HP HQ Hnew. unfold observe. simpl. split.
  - apply (on_satisfies topic _ s HP Hnew).
  - exact HQ.
Qed.

(** One request keeps the two properties, provided a listener created by
    this request (which then takes the next subscription number) would
    satisfy [P]. *)
Lemma serve_satisfies (r : Request) (s : Server) :
  (nextSubscription (serve r s) = S (nextSubscription s) ->
   forall h emit, P (mkListener (nextSubscription s) h emit)) ->
  listenersSatisfy P s -> deliveriesSatisfy Q s ->
  listenersSatisfy P (serve r s) /\ deliveriesSatisfy Q (serve r s).
Proof.
  intros Hnew HP HQ. destruct r as [user input env|user T emit|user emit|sub|f].
  - now apply send_satisfies.
  - simpl in *. unfold onNew in *.
    destruct (verifyThreadParticipant _ _ _); [|now split].
    exact (observe_satisfies (threadTopic T) (onNew_onMessage T) emit s HP HQ
             (Hnew eq_refl _ _)).
  - exact (observe_satisfies "message:new"
             (onAnyNew_onMessage (getUserThreadIds user s)) emit s HP HQ
             (Hnew eq_refl _ _)).
  - split; [now apply off_satisfies|].
    intros d Hd. apply HQ. simpl in Hd. unfold unsubscribe, off in Hd.
    now destruct (messageEmitter s !! topic sub).
  - now split.
Qed.

End InvariantFacts.

Section RunFacts.
Import Router.

Lemma send_keeps_emitter (user : JWTPayload.t) (input : SendInput) (env : Env) (s : Server) :
  messageEmitter (send user input env s).2 = messageEmitter s
  /\ nextSubscription (send user input env s).2 = nextSubscription s.
Proof.
  unfold send.
  destruct (verifyThreadParticipant _ _ _); [|now split].
  destruct (message_create _ _ _ _ _ _) as [[[row sender] db1]|]; [|now split].
  destruct (thread_update _ _ _) as [db2|]; [|now split].
  set (ev := MessageEvent.mk _ _ _ _ _).
  pose proof (emit_messageEmitter (threadTopic (threadId input)) ev (setPrisma db2 s))
    as (E1 & _ & H1).
  destruct (emit _ ev (setPrisma db2 s)) as [s1 c1]. simpl in E1, H1.
  destruct c1; [|now split].
  pose proof (emit_messageEmitter "message:new" ev s1) as (E2 & _ & H2).
  destruct (emit "message:new" ev s1) as [s2 c2]. simpl in E2, H2.
  destruct c2; simpl; split; congruence.
Qed.

Lemma send_nextSubscription (user : JWTPayload.t) (input : SendInput) (env : Env) (s : Server) :
  nextSubscription (send user input env s).2 = nextSubscription s.
Proof. apply send_keeps_emitter. Qed.

Lemma off_nextSubscription (topic : string) (i : nat) (s : Server) :
  nextSubscription (off topic i s) = nextSubscription s.
Proof. unfold off. now destruct (messageEmitter s !! topic). Qed.

(** Subscription numbers are never reused. *)
Lemma serve_nextSubscription (r : Request) (s : Server) :
  nextSubscription s <= nextSubscription (serve r s).
Proof.
  destruct r as [user input env|user T emit|user emit|sub|f]; simpl.
  - now rewrite send_nextSubscription.
  - unfold onNew. destruct (verifyThreadParticipant _ _ _); simpl; lia.
  - simpl. lia.
  - unfold unsubscribe. now rewrite off_nextSubscription.
  - lia.
Qed.

(** A snapshot, once taken, is carried through every later request. *)
Lemma serve_snapshotHeld (i : nat) (S : gset string) (r : Request) (s : Server) :
  snapshotHeld i S s -> snapshotHeld i S (serve r s).
Proof.
  intros (HP & HQ & Hi).
  destruct (serve_satisfies
              (fun l => subscription l = i -> onMessage l = onAnyNew_onMessage S)
              (fun d => d.1 = i -> MessageEvent.threadId d.2 ∈ S)) with (r := r) (s := s)
    as [HP' HQ']; try assumption.
  - intros l e Hl Hf E. simpl in *. rewrite (Hl E) in Hf. simpl in Hf.
    now apply bool_decide_eq_true in Hf.
  - intros _ h emit E. simpl in E. lia.
  - split; [exact HP'|]. split; [exact HQ'|].
    pose proof (serve_nextSubscription r s). lia.
Qed.

Lemma run_snapshotHeld (i : nat) (S : gset string) (rs : list Request) (s : Server) :
  snapshotHeld i S s -> snapshotHeld i S (run rs s).
Proof.
  revert s. induction rs as [|r rs IH]; intros s H; [exact H|].
  simpl. apply IH. now apply serve_snapshotHeld.
Qed.

(** Opening the global channel on a well-formed server takes the snapshot. *)
Lemma onAnyNew_snapshotHeld (user : JWTPayload.t) (emit : Observer) (s : Server) :
  wellFormed s ->
  snapshotHeld (nextSubscription s) (getUserThreadIds user s) (onAnyNew user emit s).2.
Proof.
  intros (Hl & Hd & _). unfold onAnyNew, observe. simpl. split; [|split].
  - apply on_satisfies; [|reflexivity].
    intros topic ls l Hlookup Hin E. specialize (Hl topic ls l Hlookup Hin).
    simpl in Hl. lia.
  - intros d Hin E. specialize (Hd d Hin). simpl in Hd. lia.
  - simpl. lia.
Qed.

End RunFacts.

Section WellFormedFacts.
Import Router.

Lemma wellFormed_initial (db : Prisma) : wellFormed (initialServer db).
Proof.
  split; [|split].
  - intros topic ls l H. simpl in H. now rewrite lookup_empty in H.
  - intros d [].
  - intros topic ls H. simpl in H. now rewrite lookup_empty in H.
Qed.

Lemma NoDup_snoc {A} (l : list A) (x : A) :
  List.NoDup l -> ~ In x l -> List.NoDup (l ++ [x]).
Proof.
  induction l as [|y l IH]; intros Hnd Hx; simpl.
  - constructor; [tauto|constructor].
  - apply List.NoDup_cons_iff in Hnd. destruct Hnd as [Hy Hnd].
    constructor.
    + intros Hin. apply in_app_or in Hin. destruct Hin as [Hin|[->|[]]]; [tauto|].
      apply Hx. now left.
    + apply IH; [exact Hnd|]. intros Hin. apply Hx. now right.
Qed.

Lemma removeLast_NoDup (i : nat) (ls : list Listener) :
  List.NoDup (map subscription ls) -> List.NoDup (map subscription (removeLast i ls).1).
Proof.
  induction ls as [|l0 ls IH]; intros Hnd; [exact Hnd|].
  simpl in Hnd. apply List.NoDup_cons_iff in Hnd. destruct Hnd as [Hfresh Hnd].
  specialize (IH Hnd). pose proof (removeLast_In i ls) as Hsub.
  simpl. destruct (removeLast i ls) as [r found]. simpl in *.
  destruct found; simpl.
  - constructor; [|exact IH]. intros Hin. apply Hfresh.
    apply in_map_iff in Hin. destruct Hin as (l & E & Hl).
    rewrite <- E. apply in_map. now apply Hsub.
  - destruct (bool_decide (subscription l0 = i)); simpl; [exact Hnd|].
    now constructor.
Qed.

Lemma on_NoDup (topic : string) (l : Listener) (s : Server) :
  wellFormed s -> subscription l = nextSubscription s ->
  forall topic' ls, messageEmitter (on topic l s) !! topic' = Some ls ->
                    List.NoDup (map subscription ls).
Proof.
  intros (Hl & _ & Hnd) Hfresh topic' ls Hlookup. simpl in Hlookup.
  destruct (decide (topic = topic')) as [<-|Hne].
  - rewrite lookup_insert_eq in Hlookup. injection Hlookup as <-.
    rewrite map_app. simpl. unfold listeners.
    destruct (messageEmitter s !! topic) as [ls0|] eqn:E; simpl.
    + apply NoDup_snoc; [now apply (Hnd topic)|].
      intros Hin. apply in_map_iff in Hin. destruct Hin as (l' & E' & Hl').
      specialize (Hl topic ls0 l' E Hl'). simpl in Hl. lia.
    + constructor; [tauto|constructor].
  - rewrite lookup_insert_ne in Hlookup by assumption. now apply (Hnd topic').
Qed.

Lemma off_NoDup (topic : string) (i : nat) (s : Server) :
  wellFormed s ->
  forall topic' ls, messageEmitter (off topic i s) !! topic' = Some ls ->
                    List.NoDup (map subscription ls).
Proof.
  intros (_ & _ & Hnd) topic' ls. unfold off.
  destruct (messageEmitter s !! topic) as [ls0|] eqn:E; [|apply Hnd].
  simpl. pose proof (removeLast_NoDup i ls0 (Hnd topic ls0 E)) as Hr.
  destruct (decide (topic = topic')) as [<-|Hne].
  - destruct (removeLast i ls0).1 as [|x r].
    + now rewrite lookup_delete_eq.
    + rewrite lookup_insert_eq. now intros [= <-].
  - destruct (removeLast i ls0).1 as [|x r].
    + rewrite lookup_delete_ne by assumption. apply Hnd.
    + rewrite lookup_insert_ne by assumption. apply Hnd.
Qed.

(** Every request keeps the server well formed. *)
Lemma serve_wellFormed (r : Request) (s : Server) :
  wellFormed s -> wellFormed (serve r s).
Proof.
  intros Hwf. pose proof Hwf as (Hl & Hd & Hnd).
  pose proof (serve_nextSubscription r s) as Hmono.
  destruct (serve_satisfies
              (fun l => subscription l < nextSubscription (serve r s))
              (fun d => d.1 < nextSubscription (serve r s))) with (r := r) (s := s)
    as [HP HQ].
  - intros l e H _. exact H.
  - intros E h emit. simpl. lia.
  - intros topic ls l Hlookup Hin. specialize (Hl topic ls l Hlookup Hin). simpl in *. lia.
  - intros d Hin. specialize (Hd d Hin). simpl in *. lia.
  - split; [exact HP|]. split; [exact HQ|].
    destruct r as [user input env|user T emit|user emit|sub|f]; simpl.
    + destruct (send_keeps_emitter user input env s) as [-> _]. exact Hnd.
    + unfold onNew. destruct (verifyThreadParticipant _ _ _); [|exact Hnd].
      simpl. now apply on_NoDup.
    + now apply on_NoDup.
    + now apply off_NoDup.
    + exact Hnd.
Qed.

Lemma run_wellFormed (rs : list Request) (s : Server) :
  wellFormed s -> wellFormed (run rs s).
Proof.
  revert s. induction rs as [|r rs IH]; intros s H; [exact H|].
  simpl. apply IH. now apply serve_wellFormed.
Qed.

Lemma stream_In (i : nat) (e : MessageEvent.t) (s : Server) :
  In e (stream i s) <-> In (i, e) (delivered s).
Proof.
  unfold stream. rewrite in_map_iff. split.
  - intros ([j e'] & E & Hin). simpl in E. subst e'.
    apply filter_In in Hin. destruct Hin as [Hin Hj]. simpl in Hj.
    apply bool_decide_eq_true in Hj. now subst j.
  - intros Hin. exists (i, e). split; [reflexivity|].
    apply filter_In. split; [exact Hin|]. simpl. now apply bool_decide_true.
Qed.

End WellFormedFacts.

(** C2.  A subscriber of the global channel ([message.onAnyNew]) filters
    with the set of thread ids computed once, when the subscription is set
    up.  Whatever requests the server serves afterwards (database writes that
    make the subscriber a participant of further threads, sends, other
    subscriptions), the listener of this subscription still carries the set
    computed at subscribe time, and for every thread [T] outside that set no
    event with [threadId = T] is delivered on this subscription.  (A new
    subscription gets a number and a stream of its own.) *)
Theorem onAnyNew_membership_snapshot
    (user : Router.JWTPayload.t) (emit : Router.Observer)
    (s : Router.Server) (rs : list Router.Request) :
  Router.wellFormed s ->
  let i := Router.nextSubscription s in
  let S := Router.getUserThreadIds user s in
  let s1 := (Router.onAnyNew user emit s).2 in
  (Router.onAnyNew user emit s).1 = Router.Return (Router.mkSubscription "message:new" i)
  /\ In (Router.mkListener i (Router.onAnyNew_onMessage S) emit)
        (Router.listeners "message:new" s1)
  /\ (forall topic ls l,
        Router.messageEmitter (Router.run rs s1) !! topic = Some ls -> In l ls ->
        Router.subscription l = i ->
        Router.onMessage l = Router.onAnyNew_onMessage S)
  /\ (forall T, T ∉ S ->
        forall e, In e (Router.stream i (Router.run rs s1)) ->
                  Router.MessageEvent.threadId e <> T).
Proof.
  intros Hwf i S s1.
  pose proof (run_snapshotHeld i S rs s1 (onAnyNew_snapshotHeld user emit s Hwf))
    as (HP & HQ & _).
  split; [reflexivity|]. split; [|split].
  - unfold s1, Router.onAnyNew, Router.observe, Router.listeners. simpl.
    rewrite lookup_insert_eq. simpl. apply in_or_app. right. now left.
  - exact HP.
  - intros T HT e He Heq. apply stream_In in He.
    specialize (HQ (i, e) He eq_refl). simpl in HQ. now subst T.
Qed.

(** The snapshot at work: Carol opens the global channel while in no
    thread, is then added to T1, and Alice sends to T1.  Carol is a
    participant of T1 by then, yet her subscription delivers nothing; the
    subscription she opens afterwards delivers the next message. *)
Example resubscribing_refreshes_the_snapshot :
  let s := Router.run RouterScenario.thenResubscribed
             (Router.onAnyNew RouterScenario.carol RouterScenario.healthy
                (Router.initialServer RouterScenario.db)).2 in
  In ("u-carol", "T1") (Router.threadParticipant (Router.prisma s))
  /\ length (Router.message (Router.prisma s)) = 2
  /\ Router.stream 0 s = []
  /\ Router.stream 1 s = [RouterScenario.e2].
Proof. vm_compute. repeat split; try reflexivity. tauto. Qed.

(** ** The theorems at work on concrete inputs *)

Lemma send_validates_content_length_witness :
  Router.send_procedure (Some RouterScenario.alice)
    {| Router.threadId := "T1"; Router.content := [] |}
    RouterScenario.env1 RouterScenario.twoHealthy
  = (Router.Throw
       (Router.ZodError [Zod.mkIssue Zod.too_small (Some "Message cannot be empty"%string)]),
     RouterScenario.twoHealthy)
  /\ Router.send_procedure (Some RouterScenario.alice) RouterScenario.hiToT1
       RouterScenario.env1 RouterScenario.twoHealthy
     = Router.send RouterScenario.alice RouterScenario.hiToT1
         RouterScenario.env1 RouterScenario.twoHealthy.
Proof.
  split.
  - destruct (send_validates_content_length RouterScenario.alice
                {| Router.threadId := "T1"; Router.content := [] |}
                RouterScenario.env1 RouterScenario.twoHealthy) as (Hempty & _).
    apply Hempty. reflexivity.
  - destruct (send_validates_content_length RouterScenario.alice RouterScenario.hiToT1
                RouterScenario.env1 RouterScenario.twoHealthy) as (_ & _ & _ & Hvalid & _).
    apply Hvalid. simpl. lia.
Defined.

Lemma getReconnectDelay_within_jitter_bounds_witness :
  (0.8 * Qmin (1000 * 2 ^ 3) 30000 <= Trpc.getReconnectDelay 3 0.25
   /\ Trpc.getReconnectDelay 3 0.25 <= 1.2 * Qmin (1000 * 2 ^ 3) 30000)%Q.
Proof.
  apply (getReconnectDelay_within_jitter_bounds 3 0.25).
  - lia.
  - unfold Qle. simpl. lia.
  - unfold Qlt. simpl. lia.
Defined.


Lemma onNew_forbidden_for_non_participant_witness :
  Router.onNew RouterScenario.carol "T1" RouterScenario.healthy RouterScenario.twoHealthy
  = (Router.Throw
       (Router.TRPCError Router.FORBIDDEN "You are not a participant in this thread"),
     RouterScenario.twoHealthy).
Proof.
  apply (onNew_forbidden_for_non_participant RouterScenario.carol "T1"
           RouterScenario.healthy RouterScenario.twoHealthy).
  vm_compute. intros [H|[H|[]]]; discriminate H.
Defined.

Lemma send_forbidden_for_non_participant_witness :
  Router.send RouterScenario.carol RouterScenario.hiToT1 RouterScenario.env1
    RouterScenario.twoHealthy
  = (Router.Throw
       (Router.TRPCError Router.FORBIDDEN "You are not a participant in this thread"),
     RouterScenario.twoHealthy).
Proof.
  apply (send_forbidden_for_non_participant RouterScenario.carol RouterScenario.hiToT1
           RouterScenario.env1 RouterScenario.twoHealthy).
  vm_compute. intros [H|[H|[]]]; discriminate H.
Defined.

Lemma onAnyNew_membership_snapshot_witness :
  Router.wellFormed (Router.initialServer RouterScenario.db)
  /\ forall e,
       In e (Router.stream 0
               (Router.run RouterScenario.thenResubscribed
                  (Router.onAnyNew RouterScenario.carol RouterScenario.healthy
                     (Router.initialServer RouterScenario.db)).2)) ->
       Router.MessageEvent.threadId e <> "T1"%string.
Proof.
  split; [apply wellFormed_initial|].
  destruct (onAnyNew_membership_snapshot RouterScenario.carol RouterScenario.healthy
              (Router.initialServer RouterScenario.db) RouterScenario.thenResubscribed
              (wellFormed_initial RouterScenario.db)) as (_ & _ & _ & Hnone).
  apply Hnone. vm_compute. intros H. discriminate H.
Defined.

Lemma reconciliation_idempotent_on_message_id_witness :
  let l := ChatView.localMessages ChatScenario.onePending in
  let l1 := ChatView.arrive ChatView.Push ChatScenario.m1 l in
  l1 = [ChatView.Confirmed ChatScenario.m1]
  /\ ChatView.arrive (ChatView.Confirmation ChatScenario.hiVariables) ChatScenario.m1 l1 = l1
  /\ ChatView.countId "m1" (ChatView.arrive ChatView.Push ChatScenario.m1 l1) = 1.
Proof.
  cbv zeta.
  destruct (reconciliation_idempotent_on_message_id
              (ChatView.localMessages ChatScenario.onePending) ChatScenario.m1 ChatView.Push)
    as (_ & Hconfirm & _ & Hcount).
  split; [reflexivity|]. split.
  - apply Hconfirm. intros o Hin. vm_compute in Hin.
    destruct Hin as [Hin|[]]. discriminate Hin.
  - apply (Hcount eq_refl ChatView.Push).
Defined.


Lemma emit_stops_at_first_throwing_listener_witness :
  Router.emit (Router.threadTopic "T1") RouterScenario.e1 RouterScenario.brokenThenHealthy
  = (Router.setDelivered
       (Router.delivered RouterScenario.brokenThenHealthy
          ++ Router.forwarded [] RouterScenario.e1)
       RouterScenario.brokenThenHealthy,
     Router.Abrupt).
Proof.
  destruct (emit_stops_at_first_throwing_listener RouterScenario.brokenThenHealthy
              (Router.threadTopic "T1") [] [RouterScenario.aliceHealthy]
              RouterScenario.bobBroken RouterScenario.e1) as (Habrupt & _).
  - reflexivity.
  - intros l [].
  - reflexivity.
  - apply Habrupt. reflexivity.
Defined.


(* ===================================================================== *)
(** * Part III: further properties of the code                           *)
(* ===================================================================== *)

(** ** Trimming and the two validators *)

Section TrimFacts.
Import Js.

Lemma trimStart_whitespace (ws s : jsstring) :
  forallb isWhiteSpace ws = true -> trimStart (ws ++ s) = trimStart s.
Proof.
  induction ws as [|c ws IH]; intros H; [reflexivity|].
  simpl in *. apply andb_true_iff in H. destruct H as [-> H]. now apply IH.
Qed.

Lemma trimStart_app (s ws : jsstring) :
  forallb isWhiteSpace ws = true ->
  trimStart (s ++ ws) = if forallb isWhiteSpace s then [] else trimStart s ++ ws.
Proof.
  intros H. induction s as [|c s IH]; simpl.
  - rewrite <- (app_nil_r ws) at 1. now rewrite trimStart_whitespace.
  - destruct (isWhiteSpace c); simpl; [exact IH|reflexivity].
Qed.

Lemma trimStart_all_whitespace (s : jsstring) :
  forallb isWhiteSpace s = true -> trimStart s = [].
Proof.
  intros H. rewrite <- (app_nil_r s). now rewrite trimStart_whitespace.
Qed.

Lemma trimEnd_whitespace (s ws : jsstring) :
  forallb isWhiteSpace ws = true -> trimEnd (s ++ ws) = trimEnd s.
Proof.
  intros H. unfold trimEnd. rewrite rev_app_distr, trimStart_whitespace; [reflexivity|].
  rewrite forallb_forall in *. intros c Hc. apply H. now apply in_rev.
Qed.

(** Whitespace around a text does not survive [trim]. *)
Lemma trim_surrounding_whitespace (ws1 s ws2 : jsstring) :
  forallb isWhiteSpace ws1 = true -> forallb isWhiteSpace ws2 = true ->
  trim (ws1 ++ s ++ ws2) = trim s.
Proof.
  intros H1 H2. unfold trim.
  rewrite trimStart_whitespace by assumption.
  rewrite trimStart_app by assumption.
  destruct (forallb isWhiteSpace s) eqn:E.
  - now rewrite (trimStart_all_whitespace s E).
  - now apply trimEnd_whitespace.
Qed.

Lemma validateUsername_accepts (username : jsstring) :
  Validation.validateUsername username = None
  <-> 1 <= length (trim username) <= 50.
Proof.
  unfold Validation.validateUsername, Validation.LIMITS.USERNAME_MAX_LENGTH.
  destruct (falsy (trim username)) eqn:E.
  - apply falsy_length in E. split; [discriminate | lia].
  - assert (length (trim username) <> 0) as Hlen.
    { intros H. apply falsy_length in H. congruence. }
    destruct (Nat.ltb_spec 50 (length (trim username))); split;
      solve [discriminate | lia | reflexivity].
Qed.

End TrimFacts.

(** X1.  [validateUsername] returns [null] exactly for the usernames whose
    trimmed form has 1 to 50 code units; an empty or all-whitespace username
    is answered with 'Username is required'. *)
Theorem validateUsername_bounds (username : Js.jsstring) :
  (Validation.validateUsername username = None
   <-> 1 <= length (Js.trim username) <= 50)
  /\ (forallb Js.isWhiteSpace username = true ->
      Validation.validateUsername username = Some "Username is required"%string).
Proof.
  split; [apply validateUsername_accepts|].
  intros H. unfold Validation.validateUsername, Js.trim.
  now rewrite (trimStart_all_whitespace username H).
Qed.

Lemma validateUsername_bounds_witness :
  Validation.validateUsername (Js.ofString "  ") = Some "Username is required"%string
  /\ Validation.validateUsername (Js.ofString " alice ") = None.
Proof.
  split.
  - apply (validateUsername_bounds (Js.ofString "  ")). reflexivity.
  - apply (validateUsername_bounds (Js.ofString " alice ")). vm_compute. lia.
Defined.

(** X2.  Both validators judge a text by its trimmed form: whitespace added
    in front of or behind a text changes neither the verdict of
    [validateMessage] nor that of [validateUsername]. *)
Theorem validators_ignore_surrounding_whitespace (ws1 s ws2 : Js.jsstring) :
  forallb Js.isWhiteSpace ws1 = true -> forallb Js.isWhiteSpace ws2 = true ->
  Validation.validateMessage (ws1 ++ s ++ ws2) = Validation.validateMessage s
  /\ Validation.validateUsername (ws1 ++ s ++ ws2) = Validation.validateUsername s.
Proof.
  intros H1 H2. unfold Validation.validateMessage, Validation.validateUsername.
  now rewrite (trim_surrounding_whitespace ws1 s ws2 H1 H2).
Qed.

Lemma validators_ignore_surrounding_whitespace_witness :
  Validation.validateMessage (Js.ofString "  " ++ Js.ofString "hi" ++ [9; 10]%N)
  = Validation.validateMessage (Js.ofString "hi")
  /\ Validation.validateUsername (Js.ofString "  " ++ Js.ofString "hi" ++ [9; 10]%N)
     = Validation.validateUsername (Js.ofString "hi").
Proof.
  apply (validators_ignore_surrounding_whitespace
           (Js.ofString "  ") (Js.ofString "hi") [9; 10]%N); reflexivity.
Defined.

(** X3.  What [handleSend] hands to [sendMutation.mutate] always passes the
    input schema of [message.send]: when a send goes out, its content is the
    trimmed text of the input box, of 1 to 5000 code units, for the thread of
    the view; the list has grown by exactly one placeholder with status
    [sending] carrying that content and the generated id, and the box is
    empty. *)
Theorem handleSend_sends_what_the_server_accepts
    (thread : string) (currentUser : option ChatView.User.t)
    (optimisticId : string) (now : nat) (st st' : ChatView.State)
    (v : ChatView.SendVariables.t) :
  ChatView.handleSend thread currentUser optimisticId now st = (st', Some v) ->
  Router.send_input
    {| Router.threadId := ChatView.SendVariables.threadId v;
       Router.content := ChatView.SendVariables.content v |} = []
  /\ ChatView.SendVariables.threadId v = thread
  /\ ChatView.SendVariables.content v = Js.trim (ChatView.newMessage st)
  /\ ChatView.newMessage st' = []
  /\ exists p,
       ChatView.localMessages st' = ChatView.localMessages st ++ [ChatView.Optimistic p]
       /\ ChatView.OptimisticMessage.status p = ChatView.sending
       /\ ChatView.OptimisticMessage.id p = optimisticId
       /\ ChatView.OptimisticMessage.content p = ChatView.SendVariables.content v.
Proof.
  unfold ChatView.handleSend.
  destruct (Validation.validateMessage (ChatView.newMessage st)) eqn:Ev; [discriminate|].
  apply validateMessage_accepts in Ev.
  destruct (Js.falsy _); [discriminate|].
  destruct currentUser as [user|]; [|discriminate].
  intros [= <- <-]. simpl. split; [|repeat split].
  - apply send_input_accepts. exact Ev.
  - eexists. split; [reflexivity|]. now repeat split.
Qed.

Lemma handleSend_sends_what_the_server_accepts_witness :
  Router.send_input
    {| Router.threadId := ChatView.SendVariables.threadId ChatScenario.hiVariables;
       Router.content := ChatView.SendVariables.content ChatScenario.hiVariables |} = []
  /\ ChatView.newMessage ChatScenario.onePending = [].
Proof.
  destruct (handleSend_sends_what_the_server_accepts "T1" (Some ChatScenario.alice)
              "optimistic-1" 1
              (ChatView.setNewMessage ChatScenario.hi ChatView.initialState)
              ChatScenario.onePending ChatScenario.hiVariables eq_refl)
    as (H1 & _ & _ & H4 & _).
  split; [exact H1|exact H4].
Defined.

(** ** More on the connection manager *)

Section ConnectionBudget.
Import Trpc.


Lemma onClose_without_token (c : Client) :
  token c = None ->
  token (onClose c) = None
  /\ state (manager (onClose c)) = disconnected
  /\ reconnectAttempts (manager (onClose c)) = reconnectAttempts (manager c).
Proof. intros H. unfold onClose, getAuthToken. rewrite H. now simpl. Qed.

Lemma run_without_token_count (evs : list TransportEvent) (c : Client) :
  token c = None ->
  reconnectAttempts (manager (run evs c)) <= reconnectAttempts (manager c).
Proof.
  revert c. induction evs as [|ev evs IH]; intros c H; [simpl; lia|].
  simpl. change (reconnectAttempts (manager (run evs (handle ev c)))
                 <= reconnectAttempts (manager c)).
  assert (token (handle ev c) = None) as H' by now rewrite handle_token.
  specialize (IH _ H'). destruct ev; simpl in *.
  - lia.
  - destruct (onClose_without_token c H) as (_ & _ & E). lia.
Qed.

End ConnectionBudget.



(** X5.  Without a token the manager never announces a reconnection: after
    any events, the state is [connected] if the last event was an open and
    [disconnected] if it was a close, and the attempt counter has not grown,
    so closes while logged out do not use up the retry budget. *)
Theorem logged_out_never_reconnecting
    (c : Trpc.Client) (evs : list Trpc.TransportEvent) (ev : Trpc.TransportEvent) :
  Trpc.token c = None ->
  Trpc.getState (Trpc.manager (Trpc.run (evs ++ [ev]) c))
  = match ev with Trpc.Open => Trpc.connected | Trpc.Close => Trpc.disconnected end
  /\ Trpc.reconnectAttempts (Trpc.manager (Trpc.run (evs ++ [ev]) c))
     <= Trpc.reconnectAttempts (Trpc.manager c).
Proof.
  intros H. split; [|now apply run_without_token_count].
  rewrite run_app. set (c1 := Trpc.run evs c).
  assert (Trpc.token c1 = None) as H1 by (unfold c1; now rewrite run_token).
  destruct ev; cbn [Trpc.run fold_left Trpc.handle]; [reflexivity|].
  now destruct (onClose_without_token c1 H1) as (_ & E & _).
Qed.

Lemma logged_out_never_reconnecting_witness :
  let c := {| Trpc.manager := Trpc.connectionManager; Trpc.token := None |} in
  Trpc.getState (Trpc.manager (Trpc.run ([Trpc.Open; Trpc.Close] ++ [Trpc.Close]) c))
  = Trpc.disconnected
  /\ Trpc.reconnectAttempts
       (Trpc.manager (Trpc.run ([Trpc.Open; Trpc.Close] ++ [Trpc.Close]) c)) <= 0.
Proof.
  apply (logged_out_never_reconnecting
           {| Trpc.manager := Trpc.connectionManager; Trpc.token := None |}
           [Trpc.Open; Trpc.Close] Trpc.Close).
  reflexivity.
Defined.

(** ** More on the reconnection delay *)

Section BackoffShape.
Local Open Scope Q_scope.




End BackoffShape.





(** ** The bearer token between client and server *)

Section BearerFacts.

Lemma substring_all (s : string) : String.substring 0 (String.length s) s = s.
Proof. induction s as [|c s IH]; simpl; [reflexivity|now rewrite IH]. Qed.

Lemma append_cons (c : Ascii.ascii) (s t : string) :
  String c s +:+ t = String c (s +:+ t).
Proof. reflexivity. Qed.

Lemma substring_split (s : string) (n : nat) :
  s = String.substring 0 n s +:+ String.substring n (String.length s - n) s.
Proof.
  revert n. induction s as [|c s IH]; intros [|n]; simpl; try reflexivity.
  - now rewrite substring_all.
  - rewrite append_cons. f_equal. apply IH.
Qed.

Lemma substring_prefix (p t : string) :
  String.substring 0 (String.length p) (p +:+ t) = p.
Proof.
  induction p as [|c p IH]; [now destruct t|].
  rewrite append_cons. simpl. now rewrite IH.
Qed.

Lemma prefix_append (p t : string) : String.prefix p (p +:+ t) = true.
Proof. apply String.prefix_correct, substring_prefix. Qed.

Lemma substring_after_prefix (p t : string) :
  String.substring (String.length p) (String.length (p +:+ t) - String.length p) (p +:+ t)
  = t.
Proof.
  induction p as [|c p IH].
  - change ("" +:+ t) with t. simpl. rewrite Nat.sub_0_r. apply substring_all.
  - rewrite append_cons. simpl. exact IH.
Qed.

Lemma prefix_split (p s : string) :
  String.prefix p s = true ->
  s = p +:+ String.substring (String.length p) (String.length s - String.length p) s.
Proof.
  intros H. apply String.prefix_correct in H.
  pose proof (substring_split s (String.length p)) as E.
  now rewrite H in E.
Qed.

Lemma extractToken_spec (authHeader : option string) (token : string) :
  ServerContext.extractToken authHeader = Some token
  <-> authHeader = Some ("Bearer " +:+ token).
Proof.
  unfold ServerContext.extractToken. split.
  - destruct authHeader as [h|]; [|discriminate].
    destruct (String.prefix "Bearer " h) eqn:E; [|discriminate].
    intros [= <-]. f_equal. exact (prefix_split "Bearer " h E).
  - intros ->. rewrite (prefix_append "Bearer " token).
    f_equal. exact (substring_after_prefix "Bearer " token).
Qed.

End BearerFacts.

(** X8.  [extractToken] yields a token exactly for the headers of the form
    "Bearer " followed by the token (the scheme compared case-sensitively,
    one space); every other header, and a missing one, yields [null]. *)
Theorem extractToken_exactly_bearer (authHeader : option string) (token : string) :
  (ServerContext.extractToken authHeader = Some token
   <-> authHeader = Some ("Bearer " +:+ token))
  /\ (ServerContext.extractToken authHeader = None
      <-> forall t, authHeader <> Some ("Bearer " +:+ t)).
Proof.
  split; [apply extractToken_spec|]. split.
  - intros H t E. apply extractToken_spec in E. congruence.
  - intros H. destruct (ServerContext.extractToken authHeader) as [t|] eqn:E; [|reflexivity].
    apply extractToken_spec in E. now destruct (H t).
Qed.

(** X9.  The token the client stores reaches [verifyToken] unchanged: the
    context built from the header that the client's [headers] function
    produces holds [verifyToken token] when a non-empty token is stored, and
    no user when the token is missing or empty. *)
Theorem stored_token_reaches_verifyToken
    (verifyToken : string -> option Router.JWTPayload.t) (token : option string) :
  ServerContext.createExpressContext verifyToken (ServerContext.headers token)
  = match token with
    | Some t => if ServerContext.truthy t then verifyToken t else None
    | None => None
    end.
Proof.
  unfold ServerContext.createExpressContext, ServerContext.headers.
  destruct token as [t|]; [|reflexivity].
  destruct (ServerContext.truthy t) eqn:E; [|reflexivity].
  rewrite (proj2 (extractToken_spec _ t) eq_refl). now rewrite E.
Qed.

(** ** The gate and the snapshot *)

Section GateAndSnapshot.
Import Router.

Lemma findUnique_Some (db : Prisma) (userId threadId : string) :
  In (userId, threadId) (threadParticipant db) ->
  threadParticipant_findUnique db userId threadId = Some (userId, threadId).
Proof.
  intros H. unfold threadParticipant_findUnique.
  destruct (find _ _) as [[u t]|] eqn:E.
  - apply find_some in E. destruct E as [_ Hp]. simpl in Hp.
    apply andb_true_iff in Hp. destruct Hp as [Hu Ht].
    apply bool_decide_eq_true in Hu, Ht. now subst.
  - exfalso. apply (find_none _ _ E) in H. simpl in H.
    now rewrite !bool_decide_true in H.
Qed.

Lemma verifyThreadParticipant_passes (user : JWTPayload.t) (threadId : string) (s : Server) :
  verifyThreadParticipant user threadId s = Return ()
  <-> In (JWTPayload.userId user, threadId) (threadParticipant (prisma s)).
Proof.
  unfold verifyThreadParticipant. split.
  - unfold threadParticipant_findUnique.
    destruct (find _ _) as [[u t]|] eqn:E; [intros _|discriminate].
    apply find_some in E. destruct E as [Hin Hp]. simpl in Hp.
    apply andb_true_iff in Hp. destruct Hp as [Hu Ht].
    apply bool_decide_eq_true in Hu, Ht. now subst.
  - intros H. now rewrite (findUnique_Some _ _ _ H).
Qed.

Lemma getUserThreadIds_In (user : JWTPayload.t) (threadId : string) (s : Server) :
  threadId ∈ getUserThreadIds user s
  <-> In (JWTPayload.userId user, threadId) (threadParticipant (prisma s)).
Proof.
  unfold getUserThreadIds, threadParticipant_findMany.
  rewrite elem_of_list_to_set, list_elem_of_In, in_map_iff. split.
  - intros ([u t] & E & Hin). simpl in E. subst t.
    apply filter_In in Hin. destruct Hin as [Hin Hu]. simpl in Hu.
    apply bool_decide_eq_true in Hu. now subst u.
  - intros Hin. exists (JWTPayload.userId user, threadId). split; [reflexivity|].
    apply filter_In. split; [exact Hin|]. simpl. now apply bool_decide_true.
Qed.

End GateAndSnapshot.

(** X10.  The two security helpers agree: a thread id belongs to the set
    that [getUserThreadIds] computes for a user exactly when
    [verifyThreadParticipant] lets that user through for that thread.  The
    global channel therefore forwards exactly the threads whose thread-scoped
    subscription the user could open at that moment. *)
Theorem snapshot_agrees_with_gate
    (user : Router.JWTPayload.t) (threadId : string) (s : Router.Server) :
  threadId ∈ Router.getUserThreadIds user s
  <-> Router.verifyThreadParticipant user threadId s = Router.Return ().
Proof.
  rewrite getUserThreadIds_In. symmetry. apply verifyThreadParticipant_passes.
Qed.

(** ** Properties of a subscription kept along every run *)

Section AlongRuns.
Import Router.

Variable P : Listener -> Prop.
Variable Q : nat * MessageEvent.t -> Prop.
Variable i : nat.
Hypothesis PQ :
  forall l e, P l -> forwards (onMessage l) e = true -> Q (subscription l, e).
Hypothesis P_later : forall l, i < subscription l -> P l.

(** A property of the listeners and deliveries of subscription [i] that
    later subscriptions cannot break holds after every run. *)
Lemma run_satisfies (rs : list Request) (s : Server) :
  i < nextSubscription s ->
  listenersSatisfy P s -> deliveriesSatisfy Q s ->
  listenersSatisfy P (run rs s) /\ deliveriesSatisfy Q (run rs s)
  /\ i < nextSubscription (run rs s).
Proof.
  revert s. induction rs as [|r rs IH]; intros s Hi HP HQ; [now repeat split|].
  simpl. destruct (serve_satisfies P Q PQ r s) as [HP' HQ']; try assumption.
  - intros _ h emit. apply P_later. simpl. exact Hi.
  - apply IH; try assumption.
    pose proof (serve_nextSubscription r s). lia.
Qed.

End AlongRuns.

(** X11.  A thread-scoped subscription only ever delivers events of its
    own thread: once [message.onNew] for thread [T] has succeeded, whatever
    the server serves afterwards, every event on that subscription's stream
    has [threadId = T]. *)
Theorem onNew_delivers_only_its_thread
    (user : Router.JWTPayload.t) (T : string) (emit : Router.Observer)
    (s s1 : Router.Server) (sub : Router.Subscription) (rs : list Router.Request) :
  Router.wellFormed s ->
  Router.onNew user T emit s = (Router.Return sub, s1) ->
  Router.topic sub = Router.threadTopic T
  /\ In (Router.mkListener (Router.listener sub) (Router.onNew_onMessage T) emit)
        (Router.listeners (Router.threadTopic T) s1)
  /\ forall e, In e (Router.stream (Router.listener sub) (Router.run rs s1)) ->
               Router.MessageEvent.threadId e = T.
Proof.
  intros (Hl & Hd & _). unfold Router.onNew.
  destruct (Router.verifyThreadParticipant user T s); [|discriminate].
  unfold Router.observe. intros [= <- <-]. simpl.
  split; [reflexivity|]. split.
  - unfold Router.listeners at 1. simpl. rewrite lookup_insert_eq. simpl.
    apply in_or_app. right. now left.
  - set (i := Router.nextSubscription s).
    set (s1 := Router.bumpSubscription _).
    destruct (run_satisfies
                (fun l => Router.subscription l = i ->
                          Router.onMessage l = Router.onNew_onMessage T)
                (fun d => d.1 = i -> Router.MessageEvent.threadId d.2 = T) i)
      with (rs := rs) (s := s1) as (_ & HQ & _).
    + intros l e Hown Hf E. simpl in *. rewrite (Hown E) in Hf. simpl in Hf.
      now apply bool_decide_eq_true in Hf.
    + intros l Hlt E. lia.
    + unfold s1, i. simpl. lia.
    + unfold s1. apply on_satisfies; [|reflexivity].
      intros topic ls l Hlookup Hin E. specialize (Hl topic ls l Hlookup Hin).
      simpl in Hl. unfold i in E. lia.
    + intros d Hin E. specialize (Hd d Hin). simpl in Hd, E. unfold i in E. lia.
    + intros e He. apply stream_In in He. exact (HQ (i, e) He eq_refl).
Qed.

Lemma onNew_delivers_only_its_thread_witness :
  Router.wellFormed (Router.initialServer RouterScenario.db)
  /\ forall e,
       In e (Router.stream 0
               (Router.run RouterScenario.thenResubscribed
                  (Router.onNew RouterScenario.bob "T1" RouterScenario.healthy
                     (Router.initialServer RouterScenario.db)).2)) ->
       Router.MessageEvent.threadId e = "T1"%string.
Proof.
  split; [apply wellFormed_initial|].
  exact (proj2 (proj2
           (onNew_delivers_only_its_thread RouterScenario.bob "T1" RouterScenario.healthy
              (Router.initialServer RouterScenario.db) _ _ RouterScenario.thenResubscribed
              (wellFormed_initial RouterScenario.db) eq_refl))).
Defined.

(** ** What a send does *)

Section SendFacts.
Import Router.

Lemma message_create_ok (db : Prisma) (user : JWTPayload.t) (username : string)
    (input : SendInput) (env : Env) (updatedAt : nat) :
  thread db !! threadId input = Some updatedAt ->
  Router.user db !! JWTPayload.userId user = Some username ->
  message_create db (content input) (threadId input) (JWTPayload.userId user)
    (newId env) (newCreatedAt env)
  = Some (MessageRow.mk (newId env) (content input) (newCreatedAt env)
            (threadId input) (JWTPayload.userId user),
          Sender.mk (JWTPayload.userId user) username,
          {| Router.user := Router.user db; thread := thread db;
             threadParticipant := threadParticipant db;
             message := message db
                        ++ [MessageRow.mk (newId env) (content input) (newCreatedAt env)
                              (threadId input) (JWTPayload.userId user)] |}).
Proof. intros Ht Hu. unfold message_create. now rewrite Ht, Hu. Qed.

End SendFacts.

(** X12.  A send that goes through.  When the sender is a participant, the
    thread and the sender exist and no listener of the thread's topic or of
    the global topic throws on the event, [send] returns the event built from
    the input (with the sender's id and username); the new row is the last
    message row and the thread's [updatedAt] is the time of the send; the
    event has been handed first to the listeners of [thread:T], then to those
    of [message:new], each in registration order and each forwarding it if
    its filter passes; registrations are untouched. *)
Theorem send_stores_then_publishes
    (user : Router.JWTPayload.t) (username : string) (updatedAt : nat)
    (input : Router.SendInput) (env : Router.Env) (s : Router.Server) :
  let e := Registration.sentEvent user username input env in
  In (Router.JWTPayload.userId user, Router.threadId input)
     (Router.threadParticipant (Router.prisma s)) ->
  Router.thread (Router.prisma s) !! Router.threadId input = Some updatedAt ->
  Router.user (Router.prisma s) !! Router.JWTPayload.userId user = Some username ->
  (forall l, In l (Router.listeners (Router.threadTopic (Router.threadId input)) s
                   ++ Router.listeners "message:new" s) ->
             Router.forwards (Router.onMessage l) e = true ->
             Router.emit_next l e = Router.Normal) ->
  Router.send user input env s
  = (Router.Return e,
     {| Router.prisma := Registration.afterSend user input env (Router.prisma s);
        Router.messageEmitter := Router.messageEmitter s;
        Router.delivered :=
          (Router.delivered s
           ++ Router.forwarded
                (Router.listeners (Router.threadTopic (Router.threadId input)) s) e)
          ++ Router.forwarded (Router.listeners "message:new" s) e;
        Router.nextSubscription := Router.nextSubscription s |}).
Proof.
  intros e Hin Ht Hu Hok. unfold Router.send.
  rewrite (proj2 (verifyThreadParticipant_passes user _ s) Hin).
  rewrite (message_create_ok _ user username input env updatedAt Ht Hu).
  unfold Router.thread_update. cbn [Router.thread]. rewrite Ht.
  unfold Router.emit at 1. cbn [Router.delivered Router.setPrisma Router.listeners
                                  Router.messageEmitter Router.MessageRow.id
                                  Router.MessageRow.content Router.MessageRow.createdAt
                                  Router.MessageRow.threadId].
  fold (Router.listeners (Router.threadTopic (Router.threadId input)) s).
  fold e.
  rewrite dispatch_normal
    by (intros l Hl; apply Hok, in_or_app; now left).
  unfold Router.emit. cbn [Router.delivered Router.setDelivered Router.listeners
                             Router.messageEmitter].
  fold (Router.listeners "message:new" s).
  rewrite dispatch_normal
    by (intros l Hl; apply Hok, in_or_app; now right).
  reflexivity.
Qed.

Lemma send_stores_then_publishes_witness :
  Router.send RouterScenario.alice RouterScenario.hiToT1 RouterScenario.env1
    RouterScenario.twoHealthy
  = (Router.Return RouterScenario.e1,
     {| Router.prisma :=
          Registration.afterSend RouterScenario.alice RouterScenario.hiToT1
            RouterScenario.env1 RouterScenario.db;
        Router.messageEmitter := Router.messageEmitter RouterScenario.twoHealthy;
        Router.delivered := [(0, RouterScenario.e1); (1, RouterScenario.e1)];
        Router.nextSubscription := 2 |}).
Proof.
  apply (send_stores_then_publishes RouterScenario.alice "alice" 0
           RouterScenario.hiToT1 RouterScenario.env1 RouterScenario.twoHealthy).
  - left. reflexivity.
  - reflexivity.
  - reflexivity.
  - intros l Hl _. vm_compute in Hl. destruct Hl as [<-|[<-|[]]]; reflexivity.
Defined.

Lemma emit_after_write (topic : string) (e : Router.MessageEvent.t)
    (db : Router.Prisma) (s : Router.Server) :
  Router.emit topic e (Router.setPrisma db s)
  = (let '(out, c) := Router.dispatch (Router.listeners topic s) e (Router.delivered s) in
     (Router.setDelivered out (Router.setPrisma db s), c)).
Proof. reflexivity. Qed.

(** X13.  A send that fails in the dispatch has already been stored.  When
    the sender is a participant, the thread and the sender exist, and a
    listener of [thread:T] throws on the event (those registered before it do
    not), [send] throws; yet the message row has been written and the
    thread's [updatedAt] set, the listeners before the throwing one have
    received the event, and the global topic has not been published to.  A
    client that retries after this error creates a second row. *)
Theorem send_failing_in_dispatch_is_stored
    (user : Router.JWTPayload.t) (username : string) (updatedAt : nat)
    (input : Router.SendInput) (env : Router.Env) (s : Router.Server)
    (before after : list Router.Listener) (h : Router.Listener) :
  let e := Registration.sentEvent user username input env in
  In (Router.JWTPayload.userId user, Router.threadId input)
     (Router.threadParticipant (Router.prisma s)) ->
  Router.thread (Router.prisma s) !! Router.threadId input = Some updatedAt ->
  Router.user (Router.prisma s) !! Router.JWTPayload.userId user = Some username ->
  Router.listeners (Router.threadTopic (Router.threadId input)) s = before ++ h :: after ->
  (forall l, In l before -> Router.forwards (Router.onMessage l) e = true ->
             Router.emit_next l e = Router.Normal) ->
  Router.forwards (Router.onMessage h) e = true ->
  Router.emit_next h e = Router.Abrupt ->
  Router.send user input env s
  = (Router.Throw Router.ListenerError,
     {| Router.prisma := Registration.afterSend user input env (Router.prisma s);
        Router.messageEmitter := Router.messageEmitter s;
        Router.delivered := Router.delivered s ++ Router.forwarded before e;
        Router.nextSubscription := Router.nextSubscription s |}).
Proof.
  intros e Hin Ht Hu Hls Hbefore Hf Hthrow. unfold Router.send.
  rewrite (proj2 (verifyThreadParticipant_passes user _ s) Hin).
  rewrite (message_create_ok _ user username input env updatedAt Ht Hu).
  unfold Router.thread_update. cbn [Router.thread]. rewrite Ht.
  rewrite emit_after_write, Hls.
  cbn [Router.MessageRow.id Router.MessageRow.content Router.MessageRow.createdAt
       Router.MessageRow.threadId].
  fold e. now rewrite (dispatch_abrupt before after h e _ Hbefore Hf Hthrow).
Qed.

Lemma send_failing_in_dispatch_is_stored_witness :
  Router.send RouterScenario.alice RouterScenario.hiToT1 RouterScenario.env1
    RouterScenario.brokenThenHealthy
  = (Router.Throw Router.ListenerError,
     {| Router.prisma :=
          Registration.afterSend RouterScenario.alice RouterScenario.hiToT1
            RouterScenario.env1 RouterScenario.db;
        Router.messageEmitter := Router.messageEmitter RouterScenario.brokenThenHealthy;
        Router.delivered := [];
        Router.nextSubscription := 2 |}).
Proof.
  apply (send_failing_in_dispatch_is_stored RouterScenario.alice "alice" 0
           RouterScenario.hiToT1 RouterScenario.env1 RouterScenario.brokenThenHealthy
           [] [RouterScenario.aliceHealthy] RouterScenario.bobBroken).
  - left. reflexivity.
  - reflexivity.
  - reflexivity.
  - reflexivity.
  - intros l [].
  - reflexivity.
  - reflexivity.
Defined.

(** ** Unsubscribing *)

Section UnsubscribeFacts.
Import Router Registration.

Lemma removeLast_found (i : nat) (ls : list Listener) :
  ((removeLast i ls).2 = true -> exists l, In l ls /\ subscription l = i)
  /\ ((removeLast i ls).2 = false ->
      (removeLast i ls).1 = ls /\ forall l, In l ls -> subscription l <> i).
Proof.
  induction ls as [|l0 ls [IHt IHf]]; simpl; [split; [discriminate|now split]|].
  destruct (removeLast i ls) as [r found]. simpl in *.
  destruct found; simpl.
  - split; [|discriminate]. intros _. destruct (IHt eq_refl) as (l & Hl & E).
    exists l. split; [now right|exact E].
  - destruct (IHf eq_refl) as [-> Hnone].
    destruct (bool_decide (subscription l0 = i)) eqn:E; simpl.
    + split; [|discriminate]. intros _. exists l0. split; [now left|].
      now apply bool_decide_eq_true in E.
    + split; [discriminate|]. intros _. split; [reflexivity|].
      intros l [<-|Hl]; [now apply bool_decide_eq_false in E|now apply Hnone].
Qed.

Lemma removeLast_absent (i : nat) (ls : list Listener) :
  (forall l, In l ls -> subscription l <> i) -> (removeLast i ls).1 = ls.
Proof.
  intros H. destruct (removeLast_found i ls) as [Ht Hf].
  destruct (removeLast i ls).2 eqn:E.
  - destruct (Ht eq_refl) as (l & Hl & El). now destruct (H l Hl).
  - now destruct (Hf eq_refl).
Qed.

(** With each closure registered once, [off] leaves none behind. *)
Lemma removeLast_removes (i : nat) (ls : list Listener) :
  List.NoDup (map subscription ls) ->
  forall l, In l (removeLast i ls).1 -> subscription l <> i.
Proof.
  induction ls as [|l0 ls IH]; intros Hnd; [intros l []|].
  simpl in Hnd. apply List.NoDup_cons_iff in Hnd. destruct Hnd as [Hfresh Hnd].
  specialize (IH Hnd). destruct (removeLast_found i ls) as [Ht Hf].
  simpl. destruct (removeLast i ls) as [r found]. simpl in *.
  destruct found; simpl.
  - destruct (Ht eq_refl) as (l' & Hl' & E).
    intros l [<-|Hl]; [|now apply IH].
    intros E0. apply Hfresh. rewrite E0, <- E. now apply in_map.
  - destruct (Hf eq_refl) as [-> Hnone].
    destruct (bool_decide (subscription l0 = i)) eqn:E; simpl.
    + exact Hnone.
    + intros l [<-|Hl]; [now apply bool_decide_eq_false in E|now apply Hnone].
Qed.

(** The listener added last is the one [off] removes. *)
Lemma removeLast_snoc (i : nat) (ls : list Listener) (l : Listener) :
  subscription l = i -> removeLast i (ls ++ [l]) = (ls, true).
Proof.
  intros E. induction ls as [|l0 ls IH]; simpl.
  - now rewrite bool_decide_true.
  - now rewrite IH.
Qed.

Lemma off_unregisters (t : string) (i : nat) (s : Server) :
  wellFormed s -> listensOnlyOn i t s -> unregistered i (off t i s).
Proof.
  intros (_ & _ & Hnd) Honly topic ls l. unfold off.
  destruct (messageEmitter s !! t) as [ls0|] eqn:E.
  - simpl. pose proof (removeLast_removes i ls0 (Hnd t ls0 E)) as Hr.
    destruct (decide (t = topic)) as [<-|Hne].
    + destruct (removeLast i ls0).1 as [|x r].
      * now rewrite lookup_delete_eq.
      * rewrite lookup_insert_eq. intros [= <-]. apply Hr.
    + intros Hlookup Hin Ei. apply Hne. symmetry.
      destruct (removeLast i ls0).1 as [|x r].
      * rewrite lookup_delete_ne in Hlookup by assumption.
        exact (Honly topic ls l Hlookup Hin Ei).
      * rewrite lookup_insert_ne in Hlookup by assumption.
        exact (Honly topic ls l Hlookup Hin Ei).
  - intros Hlookup Hin Ei. pose proof (Honly topic ls l Hlookup Hin Ei) as ->.
    congruence.
Qed.

Lemma on_listensOnlyOn (i : nat) (t t' : string) (l : Listener) (s : Server) :
  listensOnlyOn i t s -> (subscription l = i -> t' = t) ->
  listensOnlyOn i t (on t' l s).
Proof.
  intros Honly Hl topic ls l' Hlookup Hin E. simpl in Hlookup.
  destruct (decide (t' = topic)) as [<-|Hne].
  - rewrite lookup_insert_eq in Hlookup. injection Hlookup as <-.
    apply in_app_or in Hin. destruct Hin as [Hin|[<-|[]]]; [|now apply Hl].
    destruct (listeners_lookup t' s l' Hin) as (ls0 & Hl0 & Hls0).
    apply (Honly t' ls0 l' Hl0); [now rewrite <- Hls0|exact E].
  - rewrite lookup_insert_ne in Hlookup by assumption.
    exact (Honly topic ls l' Hlookup Hin E).
Qed.

Lemma off_listensOnlyOn (i : nat) (t t' : string) (j : nat) (s : Server) :
  listensOnlyOn i t s -> listensOnlyOn i t (off t' j s).
Proof.
  intros Honly. unfold off.
  destruct (messageEmitter s !! t') as [ls0|] eqn:E0; [|exact Honly].
  intros topic ls l Hlookup Hin E. simpl in Hlookup.
  destruct (decide (t' = topic)) as [<-|Hne].
  - destruct (removeLast j ls0).1 as [|x r] eqn:Er.
    + now rewrite lookup_delete_eq in Hlookup.
    + rewrite lookup_insert_eq in Hlookup. injection Hlookup as <-.
      apply (Honly t' ls0 l E0); [|exact E]. apply (removeLast_In j). now rewrite Er.
  - destruct (removeLast j ls0).1 as [|x r].
    + rewrite lookup_delete_ne in Hlookup by assumption.
      exact (Honly topic ls l Hlookup Hin E).
    + rewrite lookup_insert_ne in Hlookup by assumption.
      exact (Honly topic ls l Hlookup Hin E).
Qed.

Lemma serve_listensOnlyOn (i : nat) (t : string) (r : Request) (s : Server) :
  i < nextSubscription s -> listensOnlyOn i t s -> listensOnlyOn i t (serve r s).
Proof.
  intros Hi Honly. destruct r as [user input env|user T emit|user emit|sub|f]; simpl.
  - unfold listensOnlyOn. destruct (send_keeps_emitter user input env s) as [-> _].
    exact Honly.
  - unfold onNew. destruct (verifyThreadParticipant _ _ _); [|exact Honly].
    simpl. apply on_listensOnlyOn; [exact Honly|]. simpl. lia.
  - apply on_listensOnlyOn; [exact Honly|]. simpl. lia.
  - now apply off_listensOnlyOn.
  - exact Honly.
Qed.

Lemma run_listensOnlyOn (i : nat) (t : string) (rs : list Request) (s : Server) :
  i < nextSubscription s -> listensOnlyOn i t s ->
  listensOnlyOn i t (run rs s) /\ i < nextSubscription (run rs s).
Proof.
  revert s. induction rs as [|r rs IH]; intros s Hi Honly; [now split|].
  simpl. apply IH.
  - pose proof (serve_nextSubscription r s). lia.
  - now apply serve_listensOnlyOn.
Qed.

(** A publish does not reach a subscription that has no listener. *)
Lemma emit_stream_unregistered (i : nat) (topic : string) (e : MessageEvent.t) (s : Server) :
  unregistered i s -> stream i (emit topic e s).1 = stream i s.
Proof.
  intros Hun. unfold emit.
  destruct (dispatch_appends (listeners topic s) e (delivered s)) as (called & Hout & Hcalled).
  destruct (dispatch _ _ _) as [out c]. simpl in Hout. subst out. simpl.
  rewrite stream_delivered.
  replace (List.filter _ _) with (@nil (nat * MessageEvent.t)); [now rewrite app_nil_r|].
  symmetry. induction called as [|l called IH]; [reflexivity|].
  simpl. destruct (Hcalled l (or_introl eq_refl)) as [Hin _].
  destruct (listeners_lookup topic s l Hin) as (ls & Hlookup & Hls).
  rewrite bool_decide_false.
  - apply IH. intros l' Hl'. apply Hcalled. now right.
  - apply (Hun topic ls l Hlookup). now rewrite <- Hls.
Qed.

Lemma serve_stream_unregistered (i : nat) (r : Request) (s : Server) :
  unregistered i s -> stream i (serve r s) = stream i s.
Proof.
  intros Hun. destruct r as [user input env|user T emit|user emit|sub|f]; simpl.
  - unfold send.
    destruct (verifyThreadParticipant _ _ _); [|reflexivity].
    destruct (message_create _ _ _ _ _ _) as [[[row sender] db1]|]; [|reflexivity].
    destruct (thread_update _ _ _) as [db2|]; [|reflexivity].
    set (ev := MessageEvent.mk _ _ _ _ _).
    pose proof (emit_stream_unregistered i (threadTopic (threadId input)) ev
                  (setPrisma db2 s) Hun) as H1.
    pose proof (emit_messageEmitter (threadTopic (threadId input)) ev (setPrisma db2 s))
      as (Em1 & _ & _).
    destruct (emit _ ev (setPrisma db2 s)) as [s1 c1]. simpl in H1, Em1.
    change (stream i (setPrisma db2 s)) with (stream i s) in H1.
    destruct c1; [|exact H1].
    assert (unregistered i s1) as Hun1.
    { unfold unregistered, listenersSatisfy. rewrite Em1. exact Hun. }
    pose proof (emit_stream_unregistered i "message:new" ev s1 Hun1) as H2.
    destruct (emit "message:new" ev s1) as [s2 c2]. simpl in H2.
    destruct c2; simpl; congruence.
  - unfold onNew. destruct (verifyThreadParticipant _ _ _); reflexivity.
  - reflexivity.
  - unfold unsubscribe, off. now destruct (messageEmitter s !! topic sub).
  - reflexivity.
Qed.

Lemma run_stream_unregistered (i : nat) (rs : list Request) (s : Server) :
  i < nextSubscription s -> unregistered i s ->
  stream i (run rs s) = stream i s /\ unregistered i (run rs s).
Proof.
  revert s. induction rs as [|r rs IH]; intros s Hi Hun; [now split|].
  simpl.
  destruct (serve_satisfies (fun l => subscription l <> i) (fun _ => True)) with (r := r) (s := s)
    as [Hun' _]; try easy.
  - intros _ h emit. simpl. lia.
  - destruct (IH (serve r s)) as [E Hf]; try assumption.
    + pose proof (serve_nextSubscription r s). lia.
    + split; [|exact Hf]. rewrite E. now apply serve_stream_unregistered.
Qed.

(** Setting up a subscription on a well-formed server. *)
Lemma observe_listensOnlyOn (t : string) (h : OnMessage) (emit : Observer) (s : Server) :
  wellFormed s ->
  listensOnlyOn (nextSubscription s) t (observe t h emit s).2
  /\ nextSubscription s < nextSubscription (observe t h emit s).2.
Proof.
  intros (Hl & _ & _). split; [|simpl; lia].
  unfold observe. simpl. apply on_listensOnlyOn; [|reflexivity].
  intros topic ls l Hlookup Hin E. specialize (Hl topic ls l Hlookup Hin).
  simpl in Hl. lia.
Qed.

Lemma observe_then_unsubscribe (t : string) (h : OnMessage) (emit : Observer)
    (s : Server) (rs1 rs2 : list Request) :
  wellFormed s ->
  let sub := (observe t h emit s).1 in
  let s2 := run rs1 (observe t h emit s).2 in
  stream (listener sub) (run rs2 (unsubscribe sub s2)) = stream (listener sub) s2
  /\ unregistered (listener sub) (run rs2 (unsubscribe sub s2)).
Proof.
  intros Hwf sub s2.
  destruct (observe_listensOnlyOn t h emit s Hwf) as [Honly Hi].
  destruct (run_listensOnlyOn _ t rs1 _ Hi Honly) as [Honly2 Hi2]. fold s2 in Honly2, Hi2.
  assert (wellFormed s2) as Hwf2.
  { unfold s2. apply run_wellFormed.
    destruct Hwf as (Hl & Hd & Hnd). split; [|split].
    - unfold observe. simpl. apply on_satisfies.
      + intros topic ls l Hlookup Hin. specialize (Hl topic ls l Hlookup Hin).
        simpl in *. lia.
      + simpl. lia.
    - intros d Hin. specialize (Hd d Hin). simpl in *. lia.
    - unfold observe. simpl. apply on_NoDup; [now repeat split|reflexivity]. }
  change (listener sub) with (nextSubscription s).
  change (unsubscribe sub s2) with (off t (nextSubscription s) s2).
  pose proof (off_unregisters t _ s2 Hwf2 Honly2) as Hun.
  destruct (run_stream_unregistered (nextSubscription s) rs2 (off t (nextSubscription s) s2))
    as [E Hun']; [now rewrite off_nextSubscription|exact Hun|].
  split; [|exact Hun']. rewrite E.
  unfold stream, off. now destruct (messageEmitter s2 !! t).
Qed.

End UnsubscribeFacts.

(** X14.  No delivery after close.  For a subscription set up by
    [message.onNew] or [message.onAnyNew] on a well-formed server: whatever
    is served while it is open, once its cleanup function has run, its
    stream never grows again, whatever is served afterwards, and no listener
    of it is left on the emitter. *)
Theorem unsubscribe_ends_delivery
    (user : Router.JWTPayload.t) (T : string) (emit : Router.Observer)
    (s s1 : Router.Server) (sub : Router.Subscription)
    (rs1 rs2 : list Router.Request) :
  Router.wellFormed s ->
  Router.onNew user T emit s = (Router.Return sub, s1)
  \/ Router.onAnyNew user emit s = (Router.Return sub, s1) ->
  let s2 := Router.run rs1 s1 in
  Router.stream (Router.listener sub) (Router.run rs2 (Router.unsubscribe sub s2))
  = Router.stream (Router.listener sub) s2
  /\ Registration.unregistered (Router.listener sub)
       (Router.run rs2 (Router.unsubscribe sub s2)).
Proof.
  intros Hwf [H|H].
  - unfold Router.onNew in H.
    destruct (Router.verifyThreadParticipant user T s); [|discriminate].
    pose proof (observe_then_unsubscribe (Router.threadTopic T) (Router.onNew_onMessage T)
                  emit s rs1 rs2 Hwf) as Hobs.
    destruct (Router.observe _ _ emit s) as [sub' s1'].
    injection H as <- <-. exact Hobs.
  - unfold Router.onAnyNew in H.
    pose proof (observe_then_unsubscribe "message:new"
                  (Router.onAnyNew_onMessage (Router.getUserThreadIds user s))
                  emit s rs1 rs2 Hwf) as Hobs.
    destruct (Router.observe _ _ emit s) as [sub' s1'].
    injection H as <- <-. exact Hobs.
Qed.

Lemma unsubscribe_ends_delivery_witness :
  let s1 := (Router.onNew RouterScenario.bob "T1" RouterScenario.healthy
               (Router.initialServer RouterScenario.db)).2 in
  let sub := Router.mkSubscription (Router.threadTopic "T1") 0 in
  let s2 := Router.run [Router.Send RouterScenario.alice RouterScenario.hiToT1
                          RouterScenario.env1] s1 in
  Router.stream 0 s2 = [RouterScenario.e1]
  /\ Router.stream 0
       (Router.run [Router.Send RouterScenario.alice RouterScenario.hiToT1
                      RouterScenario.env2]
          (Router.unsubscribe sub s2))
     = Router.stream 0 s2.
Proof.
  cbv zeta. split; [reflexivity|].
  exact (proj1
           (unsubscribe_ends_delivery RouterScenario.bob "T1" RouterScenario.healthy
              (Router.initialServer RouterScenario.db) _
              (Router.mkSubscription (Router.threadTopic "T1") 0)
              [Router.Send RouterScenario.alice RouterScenario.hiToT1 RouterScenario.env1]
              [Router.Send RouterScenario.alice RouterScenario.hiToT1 RouterScenario.env2]
              (wellFormed_initial RouterScenario.db) (or_introl eq_refl))).
Defined.

(** X15.  The cleanup function is idempotent: on a well-formed server,
    running it a second time changes nothing. *)
Theorem unsubscribe_idempotent (sub : Router.Subscription) (s : Router.Server) :
  Router.wellFormed s ->
  Router.unsubscribe sub (Router.unsubscribe sub s) = Router.unsubscribe sub s.
Proof.
  intros (_ & _ & Hnd). unfold Router.unsubscribe.
  set (t := Router.topic sub). set (i := Router.listener sub).
  unfold Router.off at 2 3.
  destruct (Router.messageEmitter s !! t) as [ls0|] eqn:E.
  - pose proof (removeLast_removes i ls0 (Hnd t ls0 E)) as Hr.
    destruct (Router.removeLast i ls0).1 as [|x r] eqn:Er.
    + unfold Router.off. simpl. now rewrite lookup_delete_eq.
    + unfold Router.off. simpl. rewrite lookup_insert_eq.
      rewrite (removeLast_absent i (x :: r) Hr). simpl.
      now rewrite insert_insert_eq.
  - unfold Router.off. now rewrite E.
Qed.

Lemma unsubscribe_idempotent_witness :
  let sub := Router.mkSubscription (Router.threadTopic "T1") 0 in
  Router.unsubscribe sub (Router.unsubscribe sub RouterScenario.twoHealthy)
  = Router.unsubscribe sub RouterScenario.twoHealthy.
Proof.
  apply (unsubscribe_idempotent (Router.mkSubscription (Router.threadTopic "T1") 0)
           RouterScenario.twoHealthy).
  apply run_wellFormed, wellFormed_initial.
Defined.

(** X16.  Subscribing and closing at once leaves no trace on the emitter:
    after the cleanup function of a subscription that was just set up (by
    [onNew] or [onAnyNew]), every topic has the listeners it had before, and
    the database and the deliveries are as before. *)
Theorem subscribe_then_unsubscribe_restores
    (user : Router.JWTPayload.t) (T : string) (emit : Router.Observer)
    (s s1 : Router.Server) (sub : Router.Subscription) :
  Router.onNew user T emit s = (Router.Return sub, s1)
  \/ Router.onAnyNew user emit s = (Router.Return sub, s1) ->
  (forall topic, Router.listeners topic (Router.unsubscribe sub s1)
                 = Router.listeners topic s)
  /\ Router.prisma (Router.unsubscribe sub s1) = Router.prisma s
  /\ Router.delivered (Router.unsubscribe sub s1) = Router.delivered s.
Proof.
  assert (forall t h,
            (forall topic,
               Router.listeners topic
                 (Router.unsubscribe (Router.observe t h emit s).1 (Router.observe t h emit s).2)
               = Router.listeners topic s)
            /\ Router.prisma
                 (Router.unsubscribe (Router.observe t h emit s).1 (Router.observe t h emit s).2)
               = Router.prisma s
            /\ Router.delivered
                 (Router.unsubscribe (Router.observe t h emit s).1 (Router.observe t h emit s).2)
               = Router.delivered s) as Hobs.
  { intros t h. unfold Router.unsubscribe, Router.observe, Router.off. simpl.
    rewrite lookup_insert_eq.
    rewrite (removeLast_snoc (Router.nextSubscription s) (Router.listeners t s)
               (Router.mkListener (Router.nextSubscription s) h emit) eq_refl).
    simpl. split; [|now destruct (Router.listeners t s)].
    intros topic. unfold Router.listeners at 1.
    destruct (Router.listeners t s) as [|x r] eqn:El; simpl.
    - destruct (decide (t = topic)) as [<-|Hne].
      + now rewrite lookup_delete_eq, El.
      + now rewrite lookup_delete_ne, lookup_insert_ne by assumption.
    - destruct (decide (t = topic)) as [<-|Hne].
      + now rewrite lookup_insert_eq, El.
      + now rewrite !lookup_insert_ne by assumption. }
  intros [H|H].
  - unfold Router.onNew in H.
    destruct (Router.verifyThreadParticipant user T s); [|discriminate].
    specialize (Hobs (Router.threadTopic T) (Router.onNew_onMessage T)).
    destruct (Router.observe _ _ emit s) as [sub' s1'].
    injection H as <- <-. exact Hobs.
  - unfold Router.onAnyNew in H.
    specialize (Hobs "message:new"
                  (Router.onAnyNew_onMessage (Router.getUserThreadIds user s))).
    destruct (Router.observe _ _ emit s) as [sub' s1'].
    injection H as <- <-. exact Hobs.
Qed.

Lemma subscribe_then_unsubscribe_restores_witness :
  Router.prisma
    (Router.unsubscribe (Router.mkSubscription "message:new" 2)
       (Router.onAnyNew RouterScenario.carol RouterScenario.healthy
          RouterScenario.twoHealthy).2)
  = Router.prisma RouterScenario.twoHealthy
  /\ Router.listeners "message:new"
       (Router.unsubscribe (Router.mkSubscription "message:new" 2)
          (Router.onAnyNew RouterScenario.carol RouterScenario.healthy
             RouterScenario.twoHealthy).2)
     = Router.listeners "message:new" RouterScenario.twoHealthy.
Proof.
  destruct (subscribe_then_unsubscribe_restores RouterScenario.carol "" RouterScenario.healthy
              RouterScenario.twoHealthy _ (Router.mkSubscription "message:new" 2)
              (or_intror eq_refl)) as (Hl & Hp & _).
  split; [exact Hp|exact (Hl "message:new")].
Defined.

(** ** The message list as the handlers leave it *)

Section ListShape.
Import ChatView.

Lemma NoDup_map_filter {A B} (f : A -> B) (p : A -> bool) (l : list A) :
  List.NoDup (map f l) -> List.NoDup (map f (List.filter p l)).
Proof.
  induction l as [|x l IH]; intros H; [exact H|].
  simpl in H. apply List.NoDup_cons_iff in H. destruct H as [Hx Hl].
  simpl. destruct (p x); [|now apply IH].
  simpl. constructor; [|now apply IH].
  intros Hin. apply Hx. apply in_map_iff in Hin. destruct Hin as (y & E & Hy).
  apply filter_In in Hy. rewrite <- E. apply in_map. tauto.
Qed.

Lemma removeFirst_In {A} (p : A -> bool) (l : list A) (x : A) :
  In x (removeFirst p l) -> In x l.
Proof.
  induction l as [|y l IH]; simpl; [tauto|].
  destruct (p y); simpl; [tauto|]. intros [->|H]; [now left|right; now apply IH].
Qed.

Lemma NoDup_map_removeFirst {A B} (f : A -> B) (p : A -> bool) (l : list A) :
  List.NoDup (map f l) -> List.NoDup (map f (removeFirst p l)).
Proof.
  induction l as [|x l IH]; intros H; [exact H|].
  simpl in H. apply List.NoDup_cons_iff in H. destruct H as [Hx Hl].
  simpl. destruct (p x); [exact Hl|].
  simpl. constructor; [|now apply IH].
  intros Hin. apply Hx. apply in_map_iff in Hin. destruct Hin as (y & E & Hy).
  rewrite <- E. apply in_map. now apply (removeFirst_In p).
Qed.

Lemma not_listed (i : string) (l : list DisplayMessage) :
  existsb (hasId i) l = false -> ~ In i (map id l).
Proof.
  intros H Hin. apply in_map_iff in Hin. destruct Hin as (x & E & Hx).
  assert (existsb (hasId i) l = true) as Ht; [|congruence].
  apply existsb_exists. exists x. split; [exact Hx|].
  unfold hasId. now apply bool_decide_true.
Qed.

Lemma NoDup_map_snoc (l : list DisplayMessage) (x : DisplayMessage) :
  List.NoDup (map id l) -> ~ In (id x) (map id l) -> List.NoDup (map id (l ++ [x])).
Proof. intros Hnd Hx. rewrite map_app. simpl. now apply NoDup_snoc. Qed.

Lemma onError_ids (err : string) (v : SendVariables.t) (l : list DisplayMessage) :
  map id (onError_localMessages err v l) = map id l.
Proof.
  unfold onError_localMessages. rewrite map_map. apply map_ext.
  intros [c|o]; [reflexivity|]. now destruct (_ && _).
Qed.

Lemma retry_ids (oid : string) (l : list DisplayMessage) :
  map id (retry_localMessages oid l) = map id l.
Proof.
  unfold retry_localMessages. rewrite map_map. apply map_ext.
  intros [c|o]; [reflexivity|]. now destruct (bool_decide _).
Qed.

Lemma arrive_NoDup (a : Arrival) (m : Message.t) (l : list DisplayMessage) :
  List.NoDup (map id l) -> List.NoDup (map id (arrive a m l)).
Proof.
  intros Hnd. destruct a as [|v]; simpl.
  - unfold onData_localMessages. name_id_test m.
    destruct (existsb (hasId (Message.id m)) l) eqn:E; [exact Hnd|].
    pose proof (not_listed _ _ E) as Hout.
    destruct (find _ l).
    + apply NoDup_map_snoc; [now apply NoDup_map_removeFirst|].
      intros Hin. apply Hout. apply in_map_iff in Hin. destruct Hin as (y & Ey & Hy).
      change (Message.id m) with (id (Confirmed m)).
      rewrite <- Ey. apply in_map. now apply (removeFirst_In (matchesOptimistic m)).
    + now apply NoDup_map_snoc.
  - unfold onSuccess_localMessages. cbv zeta. name_id_test m.
    set (f := List.filter _ l).
    assert (List.NoDup (map id f)) as Hf by now apply NoDup_map_filter.
    destruct (existsb (hasId (Message.id m)) f) eqn:E; [exact Hf|].
    apply NoDup_map_snoc; [exact Hf|]. now apply not_listed.
Qed.

Lemma confirmedOf_app (l1 l2 : list DisplayMessage) :
  confirmedOf (l1 ++ l2) = confirmedOf l1 ++ confirmedOf l2.
Proof. unfold confirmedOf. apply flat_map_app. Qed.

Lemma confirmedOf_filter (p : DisplayMessage -> bool) (l : list DisplayMessage) :
  (forall c, p (Confirmed c) = true) -> confirmedOf (List.filter p l) = confirmedOf l.
Proof.
  intros H. induction l as [|[c|o] l IH]; simpl; [reflexivity| |].
  - rewrite H. simpl. now rewrite IH.
  - destruct (p (Optimistic o)); simpl; exact IH.
Qed.

Lemma confirmedOf_removeFirst (p : DisplayMessage -> bool) (l : list DisplayMessage) :
  (forall c, p (Confirmed c) = false) -> confirmedOf (removeFirst p l) = confirmedOf l.
Proof.
  intros H. induction l as [|[c|o] l IH]; simpl; [reflexivity| |].
  - rewrite H. simpl. now rewrite IH.
  - destruct (p (Optimistic o)); simpl; [reflexivity|exact IH].
Qed.

Lemma confirmedOf_map (f : DisplayMessage -> DisplayMessage) (l : list DisplayMessage) :
  (forall c, f (Confirmed c) = Confirmed c) ->
  (forall o, exists o', f (Optimistic o) = Optimistic o') ->
  confirmedOf (map f l) = confirmedOf l.
Proof.
  intros Hc Ho. induction l as [|[c|o] l IH]; simpl; [reflexivity| |].
  - rewrite Hc. simpl. now rewrite IH.
  - destruct (Ho o) as [o' ->]. simpl. exact IH.
Qed.

End ListShape.

(** X17.  The ids of the message list, which are the React keys of the
    rendered bubbles, stay pairwise distinct: if they are distinct before, they
    are distinct after a push, after a confirmation, after a failure, after a
    retry and after a discard, and after [handleSend] whenever the generated
    optimistic id is not already in the list. *)
Theorem message_ids_stay_distinct (l : list ChatView.DisplayMessage) :
  List.NoDup (map ChatView.id l) ->
  (forall a m, List.NoDup (map ChatView.id (ChatView.arrive a m l)))
  /\ (forall err v, List.NoDup (map ChatView.id (ChatView.onError_localMessages err v l)))
  /\ (forall oid, List.NoDup (map ChatView.id (ChatView.retry_localMessages oid l)))
  /\ (forall oid, List.NoDup (map ChatView.id (ChatView.remove_localMessages oid l)))
  /\ (forall thread user oid now st,
        ChatView.localMessages st = l -> ~ In oid (map ChatView.id l) ->
        List.NoDup
          (map ChatView.id
             (ChatView.localMessages (ChatView.handleSend thread user oid now st).1))).
Proof.
  intros Hnd. split; [|split; [|split; [|split]]].
  - intros a m. now apply arrive_NoDup.
  - intros err v. now rewrite onError_ids.
  - intros oid. now rewrite retry_ids.
  - intros oid. now apply NoDup_map_filter.
  - intros thread user oid now st <- Hfresh. unfold ChatView.handleSend.
    destruct (Validation.validateMessage _); [exact Hnd|].
    destruct (Js.falsy _); [exact Hnd|].
    destruct user as [u|]; [|exact Hnd].
    simpl. now apply NoDup_map_snoc.
Qed.

Lemma message_ids_stay_distinct_witness :
  List.NoDup
    (map ChatView.id
       (ChatView.arrive ChatView.Push ChatScenario.m1
          (ChatView.localMessages ChatScenario.twoPending))).
Proof.
  apply (message_ids_stay_distinct (ChatView.localMessages ChatScenario.twoPending)).
  vm_compute. constructor; [|constructor; [|constructor]].
  - intros [H|[]]. discriminate H.
  - intros [].
Defined.

(** X18.  No handler drops or reorders a confirmed message.  A push or a
    confirmation leaves the confirmed messages of the list as they were, or
    appends the arriving message to them (it does so when its id was not
    listed); a failure, a retry, a discard and [handleSend] leave them
    untouched. *)
Theorem confirmed_messages_are_append_only
    (l : list ChatView.DisplayMessage) (m : ChatView.Message.t) :
  (forall a,
     (ChatView.confirmedOf (ChatView.arrive a m l) = ChatView.confirmedOf l
      \/ ChatView.confirmedOf (ChatView.arrive a m l) = ChatView.confirmedOf l ++ [m])
     /\ (ChatView.countId (ChatView.Message.id m) l = 0 ->
         ChatView.confirmedOf (ChatView.arrive a m l) = ChatView.confirmedOf l ++ [m]))
  /\ (forall err v,
        ChatView.confirmedOf (ChatView.onError_localMessages err v l)
        = ChatView.confirmedOf l)
  /\ (forall oid,
        ChatView.confirmedOf (ChatView.retry_localMessages oid l) = ChatView.confirmedOf l)
  /\ (forall oid,
        ChatView.confirmedOf (ChatView.remove_localMessages oid l) = ChatView.confirmedOf l)
  /\ (forall thread user oid now st,
        ChatView.localMessages st = l ->
        ChatView.confirmedOf
          (ChatView.localMessages (ChatView.handleSend thread user oid now st).1)
        = ChatView.confirmedOf l).
Proof.
  split; [|split; [|split; [|split]]].
  - intros a. destruct a as [|v]; simpl.
    + unfold ChatView.onData_localMessages. name_id_test m.
      assert (ChatView.confirmedOf (ChatView.removeFirst (ChatView.matchesOptimistic m) l)
              = ChatView.confirmedOf l) as Hrem
        by (apply confirmedOf_removeFirst; intros c; reflexivity).
      destruct (existsb (ChatView.hasId (ChatView.Message.id m)) l) eqn:E.
      * split; [now left|]. intros H0. apply existsb_countId in H0. congruence.
      * destruct (find _ l); rewrite confirmedOf_app; simpl; rewrite ?Hrem;
          (split; [now right|reflexivity]).
    + unfold ChatView.onSuccess_localMessages. cbv zeta. name_id_test m.
      pose proof (countId_filter_le (ChatView.Message.id m)
                    (ChatView.kept (ChatView.SendVariables.content v)) l) as Hle.
      assert (ChatView.confirmedOf
                (List.filter (ChatView.kept (ChatView.SendVariables.content v)) l)
              = ChatView.confirmedOf l) as Hfilter
        by (apply confirmedOf_filter; intros c; reflexivity).
      unfold ChatView.kept in Hle, Hfilter.
      set (f := List.filter _ l) in *.
      destruct (existsb (ChatView.hasId (ChatView.Message.id m)) f) eqn:E.
      * split; [left; exact Hfilter|]. intros H0.
        assert (ChatView.countId (ChatView.Message.id m) f = 0) as Hf0 by lia.
        apply existsb_countId in Hf0. congruence.
      * rewrite confirmedOf_app, Hfilter. simpl. split; [now right|reflexivity].
  - intros err v. apply confirmedOf_map; [reflexivity|].
    intros o. destruct (_ && _); eauto.
  - intros oid. apply confirmedOf_map; [reflexivity|].
    intros o. destruct (bool_decide _); eauto.
  - intros oid. apply confirmedOf_filter. reflexivity.
  - intros thread user oid now st <-. unfold ChatView.handleSend.
    destruct (Validation.validateMessage _); [reflexivity|].
    destruct (Js.falsy _); [reflexivity|].
    destruct user as [u|]; [|reflexivity].
    simpl. rewrite confirmedOf_app. simpl. now rewrite app_nil_r.
Qed.

(** ** A failed send: retry and discard *)

Section FailedSend.
Import ChatView.

Lemma mapSet_fresh {V} (k : string) (v : V) (m : JsMap V) :
  (forall kv, In kv m -> kv.1 <> k) -> mapSet k v m = m ++ [(k, v)].
Proof.
  induction m as [|[k' v'] m IH]; intros H; [reflexivity|].
  simpl. rewrite bool_decide_false by (apply (H (k', v')); now left).
  f_equal. apply IH. intros kv Hkv. apply H. now right.
Qed.

Lemma mapSet_last {V} (k : string) (v v' : V) (m : JsMap V) :
  (forall kv, In kv m -> kv.1 <> k) -> mapSet k v' (m ++ [(k, v)]) = m ++ [(k, v')].
Proof.
  induction m as [|[k0 v0] m IH]; intros H; simpl.
  - now rewrite bool_decide_true.
  - rewrite bool_decide_false by (apply (H (k0, v0)); now left).
    f_equal. apply IH. intros kv Hkv. apply H. now right.
Qed.

Lemma mapGet_last {V} (k : string) (v : V) (m : JsMap V) :
  (forall kv, In kv m -> kv.1 <> k) -> mapGet k (m ++ [(k, v)]) = Some v.
Proof.
  induction m as [|[k0 v0] m IH]; intros H; simpl.
  - now rewrite bool_decide_true.
  - rewrite bool_decide_false by (apply (H (k0, v0)); now left).
    apply IH. intros kv Hkv. apply H. now right.
Qed.

Lemma mapDelete_last {V} (k : string) (v : V) (m : JsMap V) :
  (forall kv, In kv m -> kv.1 <> k) -> mapDelete k (m ++ [(k, v)]) = m.
Proof.
  unfold mapDelete, JsMap in *. induction m as [|[k0 v0] m IH]; intros H; cbn [app].
  - rewrite filter_cons_False; [reflexivity|]. simpl. tauto.
  - rewrite filter_cons_True by (apply (H (k0, v0)); now left).
    f_equal. apply IH. intros kv Hkv. apply H. now right.
Qed.

Lemma map_unchanged {A} (f : A -> A) (l : list A) :
  (forall x, In x l -> f x = x) -> map f l = l.
Proof.
  induction l as [|x l IH]; intros H; [reflexivity|].
  simpl. rewrite (H x) by now left. f_equal. apply IH. intros y Hy. apply H. now right.
Qed.

(** The state in which [handleSend] followed by the failure of that send
    leaves the component. *)
Lemma failed_send_state (thread : string) (currentUser : option User.t)
    (oid : string) (now : nat) (err : string) (st st1 : State) (v : SendVariables.t) :
  handleSend thread currentUser oid now st = (st1, Some v) ->
  noClash oid (SendVariables.content v) st ->
  exists p,
    OptimisticMessage.optimisticId p = oid
    /\ OptimisticMessage.status p = sending
    /\ OptimisticMessage.error p = None
    /\ OptimisticMessage.content p = SendVariables.content v
    /\ SendVariables.threadId v = thread
    /\ st1 = {| newMessage := [];
                localMessages := localMessages st ++ [Optimistic p];
                optimisticMessages := optimisticMessages st ++ [(oid, p)] |}
    /\ onError err v st1
       = {| newMessage := [];
            localMessages := localMessages st ++ [Optimistic (markFailed err p)];
            optimisticMessages := optimisticMessages st ++ [(oid, markFailed err p)] |}.
Proof.
  unfold handleSend.
  destruct (Validation.validateMessage _); [discriminate|].
  destruct (Js.falsy _); [discriminate|].
  destruct currentUser as [u|]; [|discriminate].
  intros [= <- <-] [Hmap Hlist]. simpl in Hmap, Hlist.
  exists {| OptimisticMessage.id := oid;
            OptimisticMessage.optimisticId := oid;
            OptimisticMessage.content := Js.trim (newMessage st);
            OptimisticMessage.createdAt := now;
            OptimisticMessage.threadId := thread;
            OptimisticMessage.sender :=
              {| User.id := User.id u; User.username := User.username u |};
            OptimisticMessage.status := sending;
            OptimisticMessage.error := None |}.
  repeat (split; [reflexivity|]).
  assert (forall kv, In kv (optimisticMessages st) -> kv.1 <> oid) as Hfresh
    by (intros kv Hkv; now apply Hmap).
  split.
  - now rewrite (mapSet_fresh oid _ _ Hfresh).
  - unfold onError. simpl. rewrite (mapSet_fresh oid _ _ Hfresh). f_equal.
    + unfold onError_localMessages. rewrite map_app. simpl.
      rewrite !bool_decide_true by reflexivity. simpl. f_equal.
      apply map_unchanged. intros [c|o] Hx; [reflexivity|].
      destruct (Hlist o Hx) as [_ Hno].
      destruct (bool_decide _ && bool_decide _) eqn:E; [|reflexivity].
      apply andb_true_iff in E. destruct E as [E1 E2].
      apply bool_decide_eq_true in E1, E2. now destruct Hno.
    + unfold onError_optimisticMessages. simpl.
      rewrite (find_first _ (optimisticMessages st) [] _).
      * now apply mapSet_last.
      * intros kv Hkv. now apply Hmap.
      * unfold pendingWith. simpl. now rewrite !bool_decide_true.
Qed.

End FailedSend.

(** X19.  Discarding a failed send undoes it.  When [handleSend] has sent
    a text and the send fails, the placeholder is shown as failed with the
    error; [removeFailedMessage] for its id then gives back the message list
    and the map of optimistic messages as they were before [handleSend]
    (given that the generated id was new and no other placeholder with the
    same text was still sending). *)
Theorem discard_undoes_failed_send
    (thread : string) (currentUser : option ChatView.User.t)
    (oid : string) (now : nat) (err : string) (st st1 : ChatView.State)
    (v : ChatView.SendVariables.t) :
  ChatView.handleSend thread currentUser oid now st = (st1, Some v) ->
  ChatView.noClash oid (ChatView.SendVariables.content v) st ->
  let st2 := ChatView.onError err v st1 in
  (exists p,
     ChatView.localMessages st2 = ChatView.localMessages st ++ [ChatView.Optimistic p]
     /\ ChatView.OptimisticMessage.status p = ChatView.failed
     /\ ChatView.OptimisticMessage.error p = Some err)
  /\ ChatView.localMessages (ChatView.removeFailedMessage oid st2)
     = ChatView.localMessages st
  /\ ChatView.optimisticMessages (ChatView.removeFailedMessage oid st2)
     = ChatView.optimisticMessages st.
Proof.
  intros Hsend Hclash st2.
  destruct (failed_send_state thread currentUser oid now err st st1 v Hsend Hclash)
    as (p & Hid & _ & _ & _ & _ & _ & E2).
  unfold st2. rewrite E2. simpl. destruct Hclash as [Hmap Hlist].
  split; [eexists; split; [reflexivity|now split]|]. split.
  - unfold ChatView.remove_localMessages. rewrite List.filter_app. simpl.
    rewrite Hid, bool_decide_true by reflexivity. simpl. rewrite app_nil_r.
    apply filter_all. intros [c|o] Hx; [reflexivity|]. simpl.
    destruct (Hlist o Hx) as [Hne _]. now rewrite bool_decide_false.
  - apply mapDelete_last. intros kv Hkv. now apply Hmap.
Qed.

Lemma discard_undoes_failed_send_witness :
  let st := ChatView.setNewMessage ChatScenario.hi ChatView.initialState in
  let st2 := ChatView.onError "Failed to fetch" ChatScenario.hiVariables
               ChatScenario.onePending in
  ChatView.localMessages (ChatView.removeFailedMessage "optimistic-1" st2)
  = ChatView.localMessages st
  /\ ChatView.optimisticMessages (ChatView.removeFailedMessage "optimistic-1" st2)
     = ChatView.optimisticMessages st.
Proof.
  apply (discard_undoes_failed_send "T1" (Some ChatScenario.alice) "optimistic-1" 1
           "Failed to fetch"
           (ChatView.setNewMessage ChatScenario.hi ChatView.initialState)
           ChatScenario.onePending ChatScenario.hiVariables eq_refl).
  split; intros ? [].
Defined.

(** X20.  Retrying a failed send puts it back in flight.  After
    [handleSend] and the failure of that send, [retryMessage] for the
    placeholder's id restores the state the component had right after
    [handleSend] (placeholder [sending], no error) and issues the mutation
    again with the same thread and content (given that the generated id was
    new and no other placeholder with the same text was still sending). *)
Theorem retry_resends_failed_send
    (thread : string) (currentUser : option ChatView.User.t)
    (oid : string) (now : nat) (err : string) (st st1 : ChatView.State)
    (v : ChatView.SendVariables.t) :
  ChatView.handleSend thread currentUser oid now st = (st1, Some v) ->
  ChatView.noClash oid (ChatView.SendVariables.content v) st ->
  ChatView.retryMessage thread oid (ChatView.onError err v st1) = (st1, Some v).
Proof.
  intros Hsend Hclash.
  destruct (failed_send_state thread currentUser oid now err st st1 v Hsend Hclash)
    as (p & Hid & Hstatus & Herror & Hcontent & Hthread & E1 & E2).
  rewrite E2, E1. destruct Hclash as [Hmap Hlist].
  assert (forall kv, In kv (ChatView.optimisticMessages st) -> kv.1 <> oid) as Hfresh
    by (intros kv Hkv; now apply Hmap).
  assert (ChatView.markSending (ChatView.markFailed err p) = p) as Hback.
  { destruct p. simpl in *. now subst. }
  unfold ChatView.retryMessage. simpl.
  rewrite (mapGet_last oid _ _ Hfresh), (mapSet_last oid _ _ _ Hfresh), Hback.
  f_equal.
  - f_equal. unfold ChatView.retry_localMessages. rewrite map_app. simpl.
    rewrite Hid, bool_decide_true, Hback by reflexivity. f_equal.
    apply map_unchanged. intros [c|o] Hx; [reflexivity|].
    destruct (Hlist o Hx) as [Hne _]. now rewrite bool_decide_false.
  - destruct v. simpl in *. now subst.
Qed.

Lemma retry_resends_failed_send_witness :
  ChatView.retryMessage "T1" "optimistic-1"
    (ChatView.onError "Failed to fetch" ChatScenario.hiVariables ChatScenario.onePending)
  = (ChatScenario.onePending, Some ChatScenario.hiVariables).
Proof.
  apply (retry_resends_failed_send "T1" (Some ChatScenario.alice) "optimistic-1" 1
           "Failed to fetch"
           (ChatView.setNewMessage ChatScenario.hi ChatView.initialState)
           ChatScenario.onePending ChatScenario.hiVariables eq_refl).
  split; intros ? [].
Defined.

(** ** Grouping of bubbles *)

(** X21.  The groups of bubbles tile the message list: for two neighbouring
    entries, the first one ends a group exactly when the second one starts
    one; the first entry of the list always starts a group and the last one
    always ends one. *)
Theorem group_boundaries_agree
    (l : list ChatView.DisplayMessage) (index : nat) (a b : ChatView.DisplayMessage) :
  (l !! index = Some a -> l !! (S index) = Some b ->
   ChatView.isLastInGroup l index a = ChatView.isFirstInGroup l (S index) b)
  /\ ChatView.isFirstInGroup l 0 a = true
  /\ (l !! (S index) = None -> ChatView.isLastInGroup l index a = true).
Proof.
  unfold ChatView.isLastInGroup, ChatView.isFirstInGroup,
    ChatView.nextMessage, ChatView.prevMessage.
  split; [|split].
  - intros -> ->. f_equal. f_equal. apply bool_decide_ext. split; congruence.
  - reflexivity.
  - now intros ->.
Qed.

Lemma group_boundaries_agree_witness :
  let l := [ChatView.Optimistic ChatScenario.pending1; ChatView.Confirmed ChatScenario.m1] in
  ChatView.isLastInGroup l 0 (ChatView.Optimistic ChatScenario.pending1)
  = ChatView.isFirstInGroup l 1 (ChatView.Confirmed ChatScenario.m1).
Proof.
  apply (group_boundaries_agree
           [ChatView.Optimistic ChatScenario.pending1; ChatView.Confirmed ChatScenario.m1]
           0 (ChatView.Optimistic ChatScenario.pending1)
           (ChatView.Confirmed ChatScenario.m1)); reflexivity.
Defined.

(** ** Relative times *)

Section FormatFacts.

Lemma minutes_of (m r : Z) :
  (0 <= r < 60000)%Z -> ((60000 * m + r) / 60000 = m)%Z.
Proof.
  intros H. rewrite Z.mul_comm, Z.div_add_l by lia.
  rewrite (Z.div_small r 60000) by lia. lia.
Qed.

Lemma hours_of (h r : Z) :
  (0 <= r < 3600000)%Z -> ((3600000 * h + r) / 3600000 = h)%Z.
Proof.
  intros H. rewrite Z.mul_comm, Z.div_add_l by lia.
  rewrite (Z.div_small r 3600000) by lia. lia.
Qed.

End FormatFacts.

(** X22.  [formatRelativeTime] by age.  A date less than a minute old, or
    in the future, reads "Just now"; from one minute up to (not including) one
    hour it reads the whole minutes elapsed, a number from 1 to 59, followed
    by "m ago"; from one hour up to one day the whole hours elapsed, from 1 to
    23, followed by "h ago"; from one day on, the locale's date. *)
Theorem formatRelativeTime_by_age
    (toLocaleDateString : Z -> string) (d now n r : Z) :
  ((now - d < 60000)%Z ->
   Format.formatRelativeTime toLocaleDateString d now = "Just now"%string)
  /\ ((1 <= n <= 59)%Z -> (0 <= r < 60000)%Z -> (now - d = 60000 * n + r)%Z ->
      Format.formatRelativeTime toLocaleDateString d now = pretty n +:+ "m ago")
  /\ ((1 <= n <= 23)%Z -> (0 <= r < 3600000)%Z -> (now - d = 3600000 * n + r)%Z ->
      Format.formatRelativeTime toLocaleDateString d now = pretty n +:+ "h ago")
  /\ ((86400000 <= now - d)%Z ->
      Format.formatRelativeTime toLocaleDateString d now = toLocaleDateString d).
Proof.
  unfold Format.formatRelativeTime. cbv zeta.
  split; [|split; [|split]].
  - intros H. destruct (Z.ltb_spec (now - d) 60000); [reflexivity|lia].
  - intros Hn Hr E. rewrite E.
    destruct (Z.ltb_spec (60000 * n + r) 60000); [lia|].
    destruct (Z.ltb_spec (60000 * n + r) 3600000); [|lia].
    now rewrite minutes_of.
  - intros Hn Hr E. rewrite E.
    destruct (Z.ltb_spec (3600000 * n + r) 60000); [lia|].
    destruct (Z.ltb_spec (3600000 * n + r) 3600000); [lia|].
    destruct (Z.ltb_spec (3600000 * n + r) 86400000); [|lia].
    now rewrite hours_of.
  - intros H.
    destruct (Z.ltb_spec (now - d) 60000); [lia|].
    destruct (Z.ltb_spec (now - d) 3600000); [lia|].
    destruct (Z.ltb_spec (now - d) 86400000); [lia|reflexivity].
Qed.

Lemma formatRelativeTime_by_age_witness :
  Format.formatRelativeTime (fun _ => "1/1/2024"%string) 0 (30 * 60 * 1000)
  = "30m ago"%string
  /\ Format.formatRelativeTime (fun _ => "1/1/2024"%string) 0 (5 * 60 * 60 * 1000)
     = "5h ago"%string.
Proof.
  split.
  - apply (formatRelativeTime_by_age (fun _ => "1/1/2024"%string) 0 (30 * 60 * 1000) 30 0);
      lia.
  - apply (formatRelativeTime_by_age (fun _ => "1/1/2024"%string) 0 (5 * 60 * 60 * 1000) 5 0);
      lia.
Defined.

(** ** Creating a thread *)

Section ThreadCreateFacts.
Import Router ThreadRouter.

Lemma participants_In (db : Prisma) (t : string) (p : string * string) :
  In p (participants db t) <-> In p (threadParticipant db) /\ p.2 = t.
Proof.
  unfold participants. rewrite filter_In, bool_decide_eq_true. reflexivity.
Qed.

(** The search clause, read on the participant rows. *)
Lemma isDirectThread_spec (db : Prisma) (me target t : string) :
  isDirectThread db me target t = true
  <-> In (me, t) (threadParticipant db)
      /\ In (target, t) (threadParticipant db)
      /\ (forall u, In (u, t) (threadParticipant db) -> u = me \/ u = target).
Proof.
  unfold isDirectThread.
  rewrite !andb_true_iff, !existsb_exists, forallb_forall. split.
  - intros [[([a x] & Ha & Ea) ([b y] & Hb & Eb)] Hall].
    apply participants_In in Ha, Hb. simpl in *.
    apply bool_decide_eq_true in Ea, Eb.
    destruct Ha as [Ha ->], Hb as [Hb ->]. subst a b.
    repeat split; [assumption|assumption|].
    intros u Hu.
    specialize (Hall (u, t)). rewrite participants_In in Hall.
    specialize (Hall (conj Hu eq_refl)). simpl in Hall.
    apply orb_true_iff in Hall.
    destruct Hall as [H|H]; apply bool_decide_eq_true in H; auto.
  - intros (Hme & Htarget & Hall). repeat split.
    + exists (me, t). rewrite participants_In. simpl.
      now rewrite bool_decide_eq_true.
    + exists (target, t). rewrite participants_In. simpl.
      now rewrite bool_decide_eq_true.
    + intros [u x] Hin. apply participants_In in Hin. simpl in *.
      destruct Hin as [Hin ->].
      apply orb_true_iff. rewrite !bool_decide_eq_true. auto.
Qed.

Lemma user_findUnique_Some (db : Prisma) (username : string) (found : string * string) :
  user_findUnique db username = Some found ->
  user db !! found.1 = Some username.
Proof.
  unfold user_findUnique. intros E. apply find_some in E.
  destruct E as [Hin Hp]. apply bool_decide_eq_true in Hp.
  destruct found as [i n]. simpl in *. subst n.
  now apply list_elem_of_In, elem_of_map_to_list in Hin.
Qed.

Lemma thread_findFirst_Some (db : Prisma) (me target t : string) :
  thread_findFirst db me target = Some t ->
  is_Some (thread db !! t) /\ isDirectThread db me target t = true.
Proof.
  unfold thread_findFirst.
  destruct (find _ _) as [[i n]|] eqn:E; [|discriminate].
  intros [= <-]. apply find_some in E. destruct E as [Hin Hp]. simpl in *.
  apply list_elem_of_In, elem_of_map_to_list in Hin. split; [eauto|assumption].
Qed.

Lemma thread_findFirst_None (db : Prisma) (me target : string) :
  thread_findFirst db me target = None ->
  forall t, is_Some (thread db !! t) -> isDirectThread db me target t = false.
Proof.
  unfold thread_findFirst.
  destruct (find _ _) as [kv|] eqn:E; [discriminate|].
  intros _ t [n Ht].
  apply (find_none _ _ E (t, n)).
  now apply list_elem_of_In, elem_of_map_to_list.
Qed.

Lemma thread_findFirst_found (db : Prisma) (me target t : string) :
  is_Some (thread db !! t) ->
  isDirectThread db me target t = true ->
  (forall t', is_Some (thread db !! t') ->
              isDirectThread db me target t' = true -> t' = t) ->
  thread_findFirst db me target = Some t.
Proof.
  intros Ht Hd Huniq.
  destruct (thread_findFirst db me target) as [t'|] eqn:E.
  - apply thread_findFirst_Some in E. destruct E as [Ht' Hd'].
    now rewrite (Huniq t' Ht' Hd').
  - rewrite (thread_findFirst_None _ _ _ E t Ht) in Hd. discriminate.
Qed.

Lemma thread_create_Some (db : Prisma) (id : string) (now : nat) (me target : string)
    (db' : Prisma) :
  thread_create db id now me target = Some db' ->
  thread db !! id = None /\ me <> target
  /\ is_Some (user db !! me) /\ is_Some (user db !! target)
  /\ db' = {| user := user db;
              thread := <[id := now]> (thread db);
              threadParticipant := threadParticipant db ++ [(me, id); (target, id)];
              message := message db |}.
Proof.
  unfold thread_create.
  destruct (thread db !! id); [discriminate|].
  destruct (user db !! me); [|discriminate].
  destruct (user db !! target); [|discriminate].
  destruct (bool_decide_reflect (me = target)); [discriminate|].
  intros [= <-]. repeat split; eauto.
Qed.

(** The two outcomes of a [create] that returns. *)
Lemma create_Return (u : JWTPayload.t) (username newId : string) (now : nat)
    (db db' : Prisma) (threadId : string) (alreadyExists : bool) :
  create u username newId now db = (Return (threadId, alreadyExists), db') ->
  username <> JWTPayload.username u
  /\ exists targetUser,
       user_findUnique db username = Some targetUser
       /\ ((alreadyExists = true /\ db' = db
            /\ thread_findFirst db (JWTPayload.userId u) targetUser.1 = Some threadId)
           \/ (alreadyExists = false /\ threadId = newId
               /\ thread_findFirst db (JWTPayload.userId u) targetUser.1 = None
               /\ thread_create db newId now (JWTPayload.userId u) targetUser.1
                  = Some db')).
Proof.
  unfold create.
  destruct (bool_decide_reflect (username = JWTPayload.username u)); [discriminate|].
  destruct (user_findUnique db username) as [targetUser|]; [|discriminate].
  destruct (thread_findFirst db _ _) as [existing|] eqn:Efirst.
  - intros [= <- <- <-]. split; [assumption|].
    exists targetUser. split; [reflexivity|]. left. auto.
  - destruct (thread_create db newId now _ _) as [db1|] eqn:Ecreate; [|discriminate].
    intros [= <- <- <-]. split; [assumption|].
    exists targetUser. split; [reflexivity|]. right. auto.
Qed.

(** After the write, a thread that was direct between the two users before
    it is direct still, and the new thread is the only one that became
    so. *)
Lemma isDirectThread_after_create (db : Prisma) (id : string) (now : nat)
    (me target : string) (db' : Prisma) :
  participantsReferToThreads db ->
  thread_create db id now me target = Some db' ->
  isDirectThread db' me target id = true
  /\ forall a b t, t <> id -> isDirectThread db' a b t = isDirectThread db a b t.
Proof.
  intros Hfk Hc. apply thread_create_Some in Hc.
  destruct Hc as (Hfresh & Hne & _ & _ & ->). split.
  - apply isDirectThread_spec. simpl. rewrite !in_app_iff. simpl.
    repeat split; [auto|auto|].
    intros u Hu. apply in_app_iff in Hu. simpl in Hu.
    destruct Hu as [Hu|[Hu|[Hu|[]]]].
    + apply Hfk in Hu. rewrite Hfresh in Hu. now destruct Hu.
    + injection Hu as ->. auto.
    + injection Hu as ->. auto.
  - intros a b t Ht.
    assert (Hrows : forall x, In (x, t) (threadParticipant db ++ [(me, id); (target, id)])
                              <-> In (x, t) (threadParticipant db)).
    { intros x. rewrite in_app_iff. simpl. split; [|auto].
      intros [H|[H|[H|[]]]]; [assumption| |]; injection H as _ E; congruence. }
    apply eq_true_iff_eq. rewrite !isDirectThread_spec. simpl.
    rewrite !Hrows. split.
    + intros (Ha & Hb & Hall). repeat split; [assumption|assumption|].
      intros x Hx. apply Hall. now apply Hrows.
    + intros (Ha & Hb & Hall). repeat split; [assumption|assumption|].
      intros x Hx. apply Hall. now apply Hrows.
Qed.

Lemma create_keeps_foreign_key (db : Prisma) (id : string) (now : nat)
    (me target : string) (db' : Prisma) :
  participantsReferToThreads db ->
  thread_create db id now me target = Some db' ->
  participantsReferToThreads db'.
Proof.
  intros Hfk Hc. apply thread_create_Some in Hc.
  destruct Hc as (_ & _ & _ & _ & ->).
  intros x t Hin. simpl in *. apply in_app_iff in Hin. simpl in Hin.
  destruct (decide (t = id)) as [->|Hne].
  - rewrite lookup_insert_eq. eauto.
  - rewrite lookup_insert_ne by congruence.
    destruct Hin as [Hin|[Hin|[Hin|[]]]]; [now apply (Hfk x)| |];
      injection Hin as _ E; congruence.
Qed.

Lemma isDirectThread_sym (db : Prisma) (a b t : string) :
  isDirectThread db a b t = isDirectThread db b a t.
Proof.
  apply eq_true_iff_eq. rewrite !isDirectThread_spec.
  split; intros (Ha & Hb & Hall); (repeat split; [assumption|assumption|]);
    intros x Hx; destruct (Hall x Hx); auto.
Qed.

(** The pairs of users the new thread is direct between. *)
Lemma new_thread_pair (db : Prisma) (id : string) (now : nat)
    (me target : string) (db' : Prisma) (a b : string) :
  participantsReferToThreads db ->
  thread_create db id now me target = Some db' ->
  isDirectThread db' a b id = true ->
  (a = me /\ b = target) \/ (a = target /\ b = me).
Proof.
  intros Hfk Hc Hd. apply thread_create_Some in Hc.
  destruct Hc as (Hfresh & Hne & _ & _ & ->).
  apply isDirectThread_spec in Hd. simpl in Hd.
  destruct Hd as (Ha & Hb & Hall).
  assert (Hrow : forall x, In (x, id) (threadParticipant db ++ [(me, id); (target, id)])
                           -> x = me \/ x = target).
  { intros x Hx. apply in_app_iff in Hx. simpl in Hx.
    destruct Hx as [Hx|[Hx|[Hx|[]]]].
    - apply Hfk in Hx. rewrite Hfresh in Hx. now destruct Hx.
    - injection Hx as ->. auto.
    - injection Hx as ->. auto. }
  assert (Hme : me = a \/ me = b).
  { apply Hall. apply in_app_iff. simpl. auto. }
  assert (Htarget : target = a \/ target = b).
  { apply Hall. apply in_app_iff. simpl. auto. }
  destruct (Hrow a Ha), (Hrow b Hb), Hme, Htarget; subst; auto; congruence.
Qed.

End ThreadCreateFacts.

(** X23.  A [create] that returns, whether it found the thread or made it,
    names a thread whose gate lets through both the caller and the user with
    the requested username, which is not the caller's own.  It deletes no
    participant row and touches neither users nor messages. *)
Theorem create_admits_both_users (u : Router.JWTPayload.t) (username newId : string)
    (now : nat) (db db' : Router.Prisma) (threadId : string) (alreadyExists : bool) :
  ThreadRouter.create u username newId now db
  = (ThreadRouter.Return (threadId, alreadyExists), db') ->
  username <> Router.JWTPayload.username u
  /\ (exists targetId,
        Router.user db !! targetId = Some username
        /\ forall (name : string) (s : Router.Server),
             Router.verifyThreadParticipant u threadId (Router.setPrisma db' s)
             = Router.Return ()
             /\ Router.verifyThreadParticipant
                  {| Router.JWTPayload.userId := targetId;
                     Router.JWTPayload.username := name |}
                  threadId (Router.setPrisma db' s)
                = Router.Return ())
  /\ (forall p, In p (Router.threadParticipant db) -> In p (Router.threadParticipant db'))
  /\ Router.user db' = Router.user db
  /\ Router.message db' = Router.message db.
Proof.
  intros H. apply create_Return in H.
  destruct H as (Hne & targetUser & Hfound & Hcase).
  split; [assumption|].
  assert (Hrows : In (Router.JWTPayload.userId u, threadId) (Router.threadParticipant db')
                  /\ In (targetUser.1, threadId) (Router.threadParticipant db')
                  /\ (forall p, In p (Router.threadParticipant db) ->
                                In p (Router.threadParticipant db'))
                  /\ Router.user db' = Router.user db
                  /\ Router.message db' = Router.message db).
  { destruct Hcase as [(_ & -> & Hfirst)|(_ & -> & _ & Hc)].
    - apply thread_findFirst_Some in Hfirst. destruct Hfirst as [_ Hd].
      apply isDirectThread_spec in Hd. destruct Hd as (Hme & Htarget & _).
      repeat split; auto.
    - apply thread_create_Some in Hc. destruct Hc as (_ & _ & _ & _ & ->).
      simpl. rewrite !in_app_iff. simpl. repeat split; auto.
      intros p Hp. apply in_app_iff. auto. }
  destruct Hrows as (Hme & Htarget & Hkeep & Hu & Hm).
  split; [|auto].
  exists targetUser.1. split; [now apply user_findUnique_Some|].
  intros name s. split; apply verifyThreadParticipant_passes; assumption.
Qed.

Lemma create_admits_both_users_witness :
  ThreadRouter.create RouterScenario.carol "alice" "T2" 30 RouterScenario.db
  = (ThreadRouter.Return ("T2", false), ThreadScenario.carolAndAlice)
  /\ Router.verifyThreadParticipant RouterScenario.carol "T2"
       (Router.setPrisma ThreadScenario.carolAndAlice
          (Router.initialServer RouterScenario.db))
     = Router.Return ().
Proof.
  assert (E : ThreadRouter.create RouterScenario.carol "alice" "T2" 30 RouterScenario.db
              = (ThreadRouter.Return ("T2", false), ThreadScenario.carolAndAlice))
    by (vm_compute; reflexivity).
  split; [exact E|].
  destruct (create_admits_both_users _ _ _ _ _ _ _ _ E) as (_ & (t & _ & H) & _).
  exact (proj1 (H "alice" (Router.initialServer RouterScenario.db))).
Defined.

(** X24.  [create] returns the existing thread instead of a second one.
    On a database whose participant rows refer to existing threads, after a
    [create] that returned, the same caller asking again for the same username
    gets the same thread id with [alreadyExists] set and the database is not
    written, whatever id and time a new thread would have been given. *)
Theorem create_again_returns_the_same_thread (u : Router.JWTPayload.t)
    (username newId : string) (now : nat) (db db' : Router.Prisma)
    (threadId : string) (alreadyExists : bool) :
  ThreadRouter.participantsReferToThreads db ->
  ThreadRouter.create u username newId now db
  = (ThreadRouter.Return (threadId, alreadyExists), db') ->
  forall (newId' : string) (now' : nat),
    ThreadRouter.create u username newId' now' db'
    = (ThreadRouter.Return (threadId, true), db').
Proof.
  intros Hfk H. apply create_Return in H.
  destruct H as (Hne & targetUser & Hfound & Hcase).
  destruct Hcase as [(_ & -> & Hfirst)|(_ & -> & Hnone & Hc)].
  - intros newId' now'. unfold ThreadRouter.create.
    destruct (bool_decide_reflect (username = Router.JWTPayload.username u));
      [contradiction|].
    now rewrite Hfound, Hfirst.
  - intros newId' now'.
    destruct (isDirectThread_after_create _ _ _ _ _ _ Hfk Hc) as [Hnew Hold].
    assert (Hfirst : ThreadRouter.thread_findFirst db' (Router.JWTPayload.userId u)
                       targetUser.1 = Some newId).
    { pose proof (thread_create_Some _ _ _ _ _ _ Hc) as (Hfresh & _ & _ & _ & Edb).
      apply thread_findFirst_found; [| exact Hnew |].
      - rewrite Edb. simpl. rewrite lookup_insert_eq. eauto.
      - intros t' Ht' Hd'.
        destruct (decide (t' = newId)) as [->|Hdiff]; [reflexivity|].
        rewrite (Hold _ _ _ Hdiff) in Hd'.
        rewrite Edb in Ht'. simpl in Ht'. rewrite lookup_insert_ne in Ht' by congruence.
        rewrite (thread_findFirst_None _ _ _ Hnone t' Ht') in Hd'. discriminate. }
    assert (Huser : ThreadRouter.user_findUnique db' username = Some targetUser).
    { pose proof (thread_create_Some _ _ _ _ _ _ Hc) as (_ & _ & _ & _ & Edb).
      rewrite Edb. exact Hfound. }
    unfold ThreadRouter.create.
    destruct (bool_decide_reflect (username = Router.JWTPayload.username u));
      [contradiction|].
    now rewrite Huser, Hfirst.
Qed.

Lemma create_again_returns_the_same_thread_witness :
  ThreadRouter.participantsReferToThreads RouterScenario.db
  /\ ThreadRouter.create RouterScenario.carol "alice" "T3" 40 ThreadScenario.carolAndAlice
     = (ThreadRouter.Return ("T2", true), ThreadScenario.carolAndAlice).
Proof.
  assert (Hfk : ThreadRouter.participantsReferToThreads RouterScenario.db).
  { intros x t [E|[E|[]]]; injection E as <- <-; exists 0%nat; reflexivity. }
  split; [exact Hfk|].
  apply (create_again_returns_the_same_thread
           RouterScenario.carol "alice" "T2" 30 RouterScenario.db
           ThreadScenario.carolAndAlice "T2" false Hfk).
  vm_compute. reflexivity.
Defined.

(** X25.  [create] never leaves two direct threads between the same two
    users.  On a database whose participant rows refer to existing threads
    and in which no two threads are direct between the same pair of users,
    the database after [create], whatever it returned or threw, has both
    properties again. *)
Theorem create_never_duplicates_a_direct_thread (u : Router.JWTPayload.t)
    (username newId : string) (now : nat) (db db' : Router.Prisma)
    (r : ThreadRouter.Result (string * bool)) :
  ThreadRouter.participantsReferToThreads db ->
  ThreadRouter.atMostOneDirectThread db ->
  ThreadRouter.create u username newId now db = (r, db') ->
  ThreadRouter.participantsReferToThreads db'
  /\ ThreadRouter.atMostOneDirectThread db'.
Proof.
  intros Hfk Hone H.
  destruct r as [[threadId alreadyExists]|e].
  - apply create_Return in H.
    destruct H as (_ & targetUser & _ & [(_ & -> & _)|(_ & _ & Hnone & Hc)]);
      [now split|].
    split; [exact (create_keeps_foreign_key _ _ _ _ _ _ Hfk Hc)|].
    destruct (isDirectThread_after_create _ _ _ _ _ _ Hfk Hc) as [_ Hold].
    pose proof (thread_create_Some _ _ _ _ _ _ Hc) as (_ & _ & _ & _ & Edb).
    assert (Hclash : forall a b t, t <> newId ->
              is_Some (Router.thread db' !! t) ->
              ThreadRouter.isDirectThread db' a b t = true ->
              ThreadRouter.isDirectThread db' a b newId = true -> False).
    { intros a b t Ht Hsome Hd Hnew.
      rewrite (Hold _ _ _ Ht) in Hd.
      rewrite Edb in Hsome. simpl in Hsome.
      rewrite lookup_insert_ne in Hsome by congruence.
      pose proof (thread_findFirst_None _ _ _ Hnone t Hsome) as Hno.
      destruct (new_thread_pair _ _ _ _ _ _ a b Hfk Hc Hnew) as [[-> ->]|[-> ->]].
      - congruence.
      - rewrite isDirectThread_sym in Hd. congruence. }
    intros a b t1 t2 H1 H2 D1 D2.
    destruct (decide (t1 = newId)) as [->|N1], (decide (t2 = newId)) as [->|N2].
    + reflexivity.
    + destruct (Hclash a b t2 N2 H2 D2 D1).
    + destruct (Hclash a b t1 N1 H1 D1 D2).
    + rewrite (Hold _ _ _ N1) in D1. rewrite (Hold _ _ _ N2) in D2.
      rewrite Edb in H1, H2. simpl in H1, H2.
      rewrite lookup_insert_ne in H1 by congruence.
      rewrite lookup_insert_ne in H2 by congruence.
      exact (Hone a b t1 t2 H1 H2 D1 D2).
  - assert (db' = db) as ->; [|now split].
    revert H. unfold ThreadRouter.create.
    destruct (bool_decide _); [now intros [= _ <-]|].
    destruct (ThreadRouter.user_findUnique db username); [|now intros [= _ <-]].
    destruct (ThreadRouter.thread_findFirst db _ _); [discriminate|].
    destruct (ThreadRouter.thread_create db _ _ _ _); [discriminate|].
    now intros [= _ <-].
Qed.

Lemma create_never_duplicates_a_direct_thread_witness :
  ThreadRouter.participantsReferToThreads RouterScenario.db
  /\ ThreadRouter.atMostOneDirectThread RouterScenario.db
  /\ ThreadRouter.atMostOneDirectThread ThreadScenario.carolAndAlice.
Proof.
  assert (Hfk : ThreadRouter.participantsReferToThreads RouterScenario.db).
  { intros x t [E|[E|[]]]; injection E as <- <-; exists 0%nat; reflexivity. }
  assert (Hone : ThreadRouter.atMostOneDirectThread RouterScenario.db).
  { assert (HT1 : forall t, is_Some (Router.thread RouterScenario.db !! t) -> t = "T1").
    { intros t [n Ht]. simpl in Ht.
      destruct (decide (t = "T1")) as [->|Hne]; [reflexivity|].
      rewrite lookup_singleton_ne in Ht by congruence. discriminate. }
    intros a b t1 t2 H1 H2 _ _. now rewrite (HT1 t1 H1), (HT1 t2 H2). }
  split; [exact Hfk|]. split; [exact Hone|].
  refine (proj2 (create_never_duplicates_a_direct_thread
                   RouterScenario.carol "alice" "T2" 30 RouterScenario.db
                   ThreadScenario.carolAndAlice
                   (ThreadRouter.Return ("T2", false)) Hfk Hone _)).
  vm_compute. reflexivity.
Defined.
